(** * DailyPaperPodcast: a shallow embedding of [app.py] and [cloudflare_app.py]

    The development follows the two scripts function by function:
    [build_prompt], [extract_conversation], [generate_show_notes],
    [generate_audio_parallel], [merge_audio_files], [save_to_file], the
    daily cycle [generate_podcast] / [run_podcast_generation], the uploads
    and the page that [app.py] renders from the files.

    Conventions.
    - A Python [str] is a Rocq [string] holding the UTF-8 bytes of the text, as
      they stand in the source files.  The only characters the code inspects
      are ASCII (braces, white space, the letters of "Brian"), and these never
      occur inside a multi-byte sequence.
    - Python [int] is [Z]; indices produced by [enumerate] are [nat].
    - The file system is a finite map from path to content.
    - The remote services and third-party libraries (the completion endpoint,
      [json], [edge_tts], [pydub], the clock) are not code of the repository;
      they are the fields of a record [World], and every general theorem is
      proved for an arbitrary world.  A concrete world is given at the end for
      the examples.
    - Output on stdout ([print]) is not modelled. *)

From stdpp Require Import base option list gmap strings pretty.
From Stdlib Require Import Ascii String ZArith Lia.

Open Scope string_scope.
Open Scope list_scope.

(** ** Strings *)

Module Str.

Definition chr (n : nat) : string := String (ascii_of_nat n) EmptyString.

(** The escapes of the Python literals: [\n] and the double quote. *)
Definition nl : string := chr 10.
Definition dq : string := chr 34.

(** [sep.join(l)] *)
Fixpoint join (sep : string) (l : list string) : string :=
  match l with
  | [] => ""
  | [x] => x
  | x :: rest => x +:+ sep +:+ join sep rest
  end.

(** [s in t]: [s] occurs verbatim inside [t]. *)
Definition contains (t s : string) : Prop :=
  ∃ pre post, t = pre +:+ s +:+ post.

Fixpoint all_chars (p : ascii → bool) (s : string) : bool :=
  match s with
  | EmptyString => true
  | String c s' => p c && all_chars p s'
  end.

End Str.

Import Str.

(** ** The feed items ([items], a list of dicts with three keys) *)

Record PaperItem := {
  title : string;
  link : string;
  description : string;
}.

(** ** [build_prompt] (identical in both scripts) *)

(** [f"- {item['title']} ({item['link']}): {item['description']}"] *)
Definition paper_summary (item : PaperItem) : string :=
  "- " +:+ title item +:+ " (" +:+ link item +:+ "): " +:+ description item.

Definition paper_summaries (items : list PaperItem) : string :=
  join nl (map paper_summary items).

(** The triple-quoted literal [template]. *)
Definition template : string :=
  nl +:+
  "    {" +:+ nl +:+
  "        " +:+ dq +:+ "conversation" +:+ dq +:+ ": [" +:+ nl +:+
  "            {" +:+ dq +:+ "speaker" +:+ dq +:+ ": " +:+ dq +:+ "Brian" +:+ dq
    +:+ ", " +:+ dq +:+ "text" +:+ dq +:+ ": " +:+ dq +:+ dq +:+ "}," +:+ nl +:+
  "            {" +:+ dq +:+ "speaker" +:+ dq +:+ ": " +:+ dq +:+ "Jenny" +:+ dq
    +:+ ", " +:+ dq +:+ "text" +:+ dq +:+ ": " +:+ dq +:+ dq +:+ "}" +:+ nl +:+
  "        ]" +:+ nl +:+
  "    }" +:+ nl +:+
  "    ".

(** The text of the f-string before [{paper_summaries}] ... *)
Definition prompt_intro : string :=
  "🎙️ Welcome to Daily Papers! Today, we're diving into the latest AI research in an engaging and " +:+
  "informative discussion. The goal is to make it a **medium-length podcast** that’s **engaging, natural, and insightful** while covering " +:+
  "the key points of each paper." +:+ nl +:+ nl +:+
  "Here are today's research papers:" +:+ nl.

(** ... and between [{paper_summaries}] and [{template}]. *)
Definition prompt_request : string :=
  nl +:+ nl +:+
  "Convert this into a **conversational podcast-style discussion** between two experts, Brian and Jenny. " +:+
  "Ensure the conversation flows naturally, using a mix of **insightful analysis, casual phrasing, and occasional filler words** like 'uhm' and 'you know' " +:+
  "to keep it realistic. The tone should be engaging yet professional, making it interesting for the audience." +:+ nl +:+ nl +:+
  "Each research paper should be **discussed meaningfully**, but avoid dragging the conversation too long. " +:+
  "Focus on key insights and practical takeaways. Keep the pacing dynamic and interactive." +:+ nl +:+ nl +:+
  "Please return the conversation in **this exact JSON format**:" +:+ nl.

Definition build_prompt (text : string) (items : list PaperItem) : string :=
  prompt_intro +:+ paper_summaries items +:+ prompt_request +:+ template.

(** ** [generate_show_notes] *)

(** [f"{i+1}. **{item['title']}**\n   - {item['description']}\n   - [Read More]({item['link']})\n\n"] *)
Definition show_note (i : nat) (item : PaperItem) : string :=
  pretty (i + 1)%nat +:+ ". **" +:+ title item +:+ "**" +:+ nl +:+
  "   - " +:+ description item +:+ nl +:+
  "   - [Read More](" +:+ link item +:+ ")" +:+ nl +:+ nl.

(** The loop [for i, item in enumerate(items): notes += ...], started at
    index [i] with the accumulator [notes]. *)
Fixpoint show_notes_loop (notes : string) (i : nat) (items : list PaperItem)
  : string :=
  match items with
  | [] => notes
  | item :: rest => show_notes_loop (notes +:+ show_note i item) (S i) rest
  end.

Definition generate_show_notes (items : list PaperItem) : string :=
  show_notes_loop
    ("**Show Notes**" +:+ nl +:+ nl +:+ "In today's episode:" +:+ nl +:+ nl)
    0 items.

(** ** Regular expressions, as [re] matches them

    A backtracking matcher for the constructs the pattern uses: a literal
    character, a negated class, sequence, ordered choice and the greedy star.
    [run r s k] matches [r] at the start of [s] and hands the rest of the text
    to the continuation [k]; when [k] fails the matcher backtracks into [r]
    (second alternative, one iteration fewer). *)

Module Re.

Inductive regex : Type :=
| Chr (c : ascii)              (* a literal, such as [\{] *)
| NoneOf (cs : list ascii)     (* a negated class, such as [[^{}]] *)
| Cat (r1 r2 : regex)
| Alt (r1 r2 : regex)          (* [r1|r2]: [r1] is tried first *)
| Star (r : regex).            (* greedy [r*] *)

Definition mem (c : ascii) (cs : list ascii) : bool :=
  existsb (Ascii.eqb c) cs.

Fixpoint run (r : regex) (s : string) (k : string → option string)
  : option string :=
  match r with
  | Chr c =>
      match s with
      | String c' s' => if Ascii.eqb c c' then k s' else None
      | EmptyString => None
      end
  | NoneOf cs =>
      match s with
      | String c' s' => if mem c' cs then None else k s'
      | EmptyString => None
      end
  | Cat r1 r2 => run r1 s (λ s', run r2 s' k)
  | Alt r1 r2 =>
      match run r1 s k with
      | Some rest => Some rest
      | None => run r2 s k
      end
  | Star r' =>
      (* at most [length s] iterations: an iteration that consumes nothing
         is not repeated *)
      (fix iterate (n : nat) (s : string) : option string :=
         match n with
         | O => k s
         | S n' =>
             match run r' s (λ s', if Nat.ltb (String.length s') (String.length s)
                                   then iterate n' s' else None) with
             | Some rest => Some rest
             | None => k s
             end
         end) (String.length s) s
  end.

(** The text matched at the start of [s], if any ([re.match(...).group()]). *)
Definition match_at (r : regex) (s : string) : option string :=
  match run r s Some with
  | Some rest =>
      Some (String.substring 0 (String.length s - String.length rest) s)
  | None => None
  end.

(** [re.search(r, s)]: the match at the leftmost position that has one,
    as [.group()]. *)
Fixpoint search (r : regex) (s : string) : option string :=
  match match_at r s with
  | Some m => Some m
  | None =>
      match s with
      | EmptyString => None
      | String _ s' => search r s'
      end
  end.

(** The iteration of [Star], as a function of its own. *)
Fixpoint star_loop (r : regex) (k : string → option string)
    (n : nat) (s : string) : option string :=
  match n with
  | O => k s
  | S n' =>
      match run r s (λ s', if Nat.ltb (String.length s') (String.length s)
                            then star_loop r k n' s' else None) with
      | Some rest => Some rest
      | None => k s
      end
  end.

End Re.

Definition lbrace : ascii := "{"%char.
Definition rbrace : ascii := "}"%char.

Definition not_brace (c : ascii) : bool :=
  negb (Re.mem c [lbrace; rbrace]).

(** [r"\{(?:[^{}]|(?:\{[^{}]*\}))*\}"] *)
Definition pattern : Re.regex :=
  Re.Cat (Re.Chr lbrace)
    (Re.Cat
       (Re.Star
          (Re.Alt (Re.NoneOf [lbrace; rbrace])
             (Re.Cat (Re.Chr lbrace)
                (Re.Cat (Re.Star (Re.NoneOf [lbrace; rbrace]))
                   (Re.Chr rbrace)))))
       (Re.Chr rbrace)).

(** One item of the outer iteration, and what follows the iteration: the
    closing brace. *)
Definition item_regex : Re.regex :=
  Re.Alt (Re.NoneOf [lbrace; rbrace])
    (Re.Cat (Re.Chr lbrace)
       (Re.Cat (Re.Star (Re.NoneOf [lbrace; rbrace])) (Re.Chr rbrace))).

Definition closing (k : string → option string) (s : string) : option string :=
  Re.run (Re.Chr rbrace) s k.

(** A text is an object with at most one level of nested braces when it is an
    opening brace, then characters other than braces or brace-free groups in
    braces, then a closing brace.  [inside depth s] reads [s] from nesting
    depth 1 (in the object) or 2 (in a group) up to the brace that closes
    the object, which must end the text. *)
Fixpoint inside (depth2 : bool) (s : string) : bool :=
  match s with
  | EmptyString => false
  | String c s' =>
      if Ascii.eqb c lbrace then (if depth2 then false else inside true s')
      else if Ascii.eqb c rbrace then
        (if depth2 then inside false s'
         else match s' with EmptyString => true | _ => false end)
      else inside depth2 s'
  end.

Definition one_level_object (s : string) : bool :=
  match s with
  | String c s' => Ascii.eqb c lbrace && inside false s'
  | EmptyString => false
  end.

Definition no_brace (s : string) : bool := all_chars not_brace s.

(** ** Python values and built-ins the scripts use *)

Module Py.

(** The values [json.loads] produces. *)
#[warnings="-register-all"] Inductive value : Type :=
| JNull                                   (* [None] *)
| JBool (b : bool)
| JInt (n : Z)
| JFloat (literal : string)
| JStr (s : string)
| JArr (elements : list value)
| JObj (fields : list (string * value)).  (* a dict, in insertion order *)

Inductive exn : Type :=
| ValueError (msg : string)
| RuntimeError (msg : string)
| KeyError (key : string)
| TypeError
| JSONDecodeError
| APIError                 (* the completion request failed *)
| NoAudioReceived          (* a speech request failed *)
| FileNotFoundError (path : string)
| CouldntDecodeError
| CouldntEncodeError
| UploadError.

Inductive outcome (A : Type) : Type :=
| Return (a : A)
| Raise (e : exn).
Arguments Return {A} a.
Arguments Raise {A} e.

Fixpoint dict_get (key : string) (fields : list (string * value))
  : option value :=
  match fields with
  | [] => None
  | (k, v) :: rest => if String.eqb k key then Some v else dict_get key rest
  end.

(** [d[key] = v] on a dict: replace in place, or add at the end. *)
Fixpoint dict_set (key : string) (v : value) (fields : list (string * value))
  : list (string * value) :=
  match fields with
  | [] => [(key, v)]
  | (k, v') :: rest =>
      if String.eqb k key then (k, v) :: rest
      else (k, v') :: dict_set key v rest
  end.

(** [v[key]] for a string key. *)
Definition subscript (v : value) (key : string) : outcome value :=
  match v with
  | JObj fields =>
      match dict_get key fields with
      | Some x => Return x
      | None => Raise (KeyError key)
      end
  | _ => Raise TypeError
  end.

(** The elements a [for] loop sees: those of a list, the keys of a dict,
    the characters of a string (here byte by byte; in the loop below a
    string element raises before anything depends on it). *)
Definition iterate (v : value) : outcome (list value) :=
  match v with
  | JArr l => Return l
  | JObj fields => Return (map (λ kv, JStr (fst kv)) fields)
  | JStr s => Return (map (λ c, JStr (String c EmptyString))
                        (list_ascii_of_string s))
  | _ => Raise TypeError
  end.

(** [v == s] for a string literal [s]. *)
Definition eq_str (v : value) (s : string) : bool :=
  match v with
  | JStr s' => String.eqb s' s
  | _ => false
  end.

(** [range(a, b)] *)
Definition range (a b : Z) : list Z :=
  map (λ i, (a + Z.of_nat i)%Z) (seq 0 (Z.to_nat (b - a))).

(** The characters for which [str.isspace] holds, in UTF-8: U+0009..000D,
    U+001C..0020, U+0085, U+00A0, U+1680, U+2000..200A, U+2028, U+2029,
    U+202F, U+205F, U+3000. *)
Definition whitespace : list string :=
  map chr [9; 10; 11; 12; 13; 28; 29; 30; 31; 32]
  ++ [chr 194 +:+ chr 133; chr 194 +:+ chr 160;
      chr 225 +:+ chr 154 +:+ chr 128]
  ++ map (λ n, chr 226 +:+ chr 128 +:+ chr n)
       [128; 129; 130; 131; 132; 133; 134; 135; 136; 137; 138;
        168; 169; 175]
  ++ [chr 226 +:+ chr 129 +:+ chr 159; chr 227 +:+ chr 128 +:+ chr 128].

Fixpoint drop_prefix (p s : string) : option string :=
  match p, s with
  | EmptyString, _ => Some s
  | String a p', String b s' =>
      if Ascii.eqb a b then drop_prefix p' s' else None
  | String _ _, EmptyString => None
  end.

(** The text after one leading character of [seqs], if [s] starts with one. *)
Fixpoint drop_one (seqs : list string) (s : string) : option string :=
  match seqs with
  | [] => None
  | w :: seqs' =>
      match drop_prefix w s with
      | Some rest => Some rest
      | None => drop_one seqs' s
      end
  end.

Fixpoint drop_leading (seqs : list string) (fuel : nat) (s : string)
  : string :=
  match fuel with
  | O => s
  | S fuel' =>
      match drop_one seqs s with
      | Some rest => drop_leading seqs fuel' rest
      | None => s
      end
  end.

Definition lstrip (s : string) : string :=
  drop_leading whitespace (String.length s) s.

Definition rstrip (s : string) : string :=
  String.rev
    (drop_leading (map String.rev whitespace) (String.length s)
       (String.rev s)).

(** [s.strip()] *)
Definition strip (s : string) : string := rstrip (lstrip s).

(** [os.path.basename]: what follows the last slash. *)
Fixpoint basename_go (acc : string) (s : string) : string :=
  match s with
  | EmptyString => String.rev acc
  | String c s' =>
      if Ascii.eqb c "/"%char then basename_go EmptyString s'
      else basename_go (String c acc) s'
  end.
Definition basename (path : string) : string := basename_go EmptyString path.

(** A calendar date, and [strftime("%Y-%m-%d")] on it (the year of
    [datetime.today()] has four digits). *)
Record date := { year : nat; month : nat; day : nat }.

Definition digit (n : nat) : ascii :=
  match n mod 10 with
  | 0 => "0" | 1 => "1" | 2 => "2" | 3 => "3" | 4 => "4"
  | 5 => "5" | 6 => "6" | 7 => "7" | 8 => "8" | _ => "9"
  end%char%nat.

Definition strftime_Ymd (d : date) : string :=
  String (digit (year d / 1000)) (String (digit (year d / 100))
    (String (digit (year d / 10)) (String (digit (year d))
      (String "-"
        (String (digit (month d / 10)) (String (digit (month d))
          (String "-"
            (String (digit (day d / 10)) (String (digit (day d))
              EmptyString))))))))).

End Py.

Export Py.

(** ** Audio, as [pydub] holds it

    An [AudioSegment] is its raw frame data.  [AudioSegment.empty()] has no
    frames and [a + b] appends the frames of [b] to those of [a] (no
    cross-fade).  The format conversion [pydub] applies when two operands
    differ in frame rate, sample width or channels is not modelled: the clips
    of one run come from one speech service in one format, and the empty
    segment adopts the format of what is added to it. *)

Record AudioSegment := { raw_data : string }.

Definition seg_empty : AudioSegment := {| raw_data := "" |}.

Definition seg_add (a b : AudioSegment) : AudioSegment :=
  {| raw_data := raw_data a +:+ raw_data b |}.

(** ** The world outside the scripts *)

Record World := {
  (** the feed, as parsed at start-up into [items] *)
  items : list PaperItem;
  (** [client.chat.completions.create(...).choices[0].message.content] at the
      given attempt, for the given prompt; [None] when the request or the
      access to the content raises *)
  completion : Z → string → option string;
  (** [json.loads]; [None] when it raises *)
  json_loads : string → option value;
  (** [json.dumps(_, indent=2)] *)
  json_dumps : value → string;
  (** [edge_tts.Communicate(text, voice).save(_)]: the bytes saved, or
      [None] when the request raises *)
  tts : value → string → option string;
  (** what the task of line [i] has left at its output path when the batch
      is abandoned because some task raised ([None]: no file) *)
  leftover : nat → option string;
  (** [AudioSegment.from_file] on the content of a file *)
  decode : string → option AudioSegment;
  (** the MP3 encoding [export] writes; [None] when the encoder fails, and
      then what the abandoned export has left at its output path ([None]:
      the path is as it was) *)
  encode : AudioSegment → option string;
  failed_export : option string;
  (** [datetime.today()] when the gate reads it and when the marker is
      written *)
  today_at_gate : date;
  today_at_end : date;
  (** [R2_BUCKET_NAME], and whether the upload of a file succeeds *)
  bucket : string;
  upload_ok : string → bool;
}.

(** [daily_feed], built at start-up next to [items]. *)
Definition daily_feed_entry (item : PaperItem) : string :=
  "Title: " +:+ strip (title item) +:+ nl +:+
  "Description: " +:+ description item +:+ nl +:+ nl.

Definition daily_feed (w : World) : string :=
  fold_left (λ acc item, acc +:+ daily_feed_entry item) (items w) "".

(** ** Effects

    A computation runs on the file system and yields its outcome, the file
    system it leaves and the effects it performed, oldest first. *)

Inductive event : Type :=
| Completion (attempt : Z) (prompt : string)
| Sleep (seconds : Z)
| WriteFile (path content : string)
| RemoveFile (path : string)
| Upload (path bucket key : string).

Abbreviation files := (gmap string string).

Definition M (A : Type) : Type := files → outcome A * files * list event.

Definition ret {A} (a : A) : M A := λ fs, (Return a, fs, []).

Definition raise {A} (e : exn) : M A := λ fs, (Raise e, fs, []).

Definition bind {A B} (m : M A) (k : A → M B) : M B :=
  λ fs,
    match m fs with
    | (Return a, fs1, l1) =>
        match k a fs1 with
        | (r, fs2, l2) => (r, fs2, l1 ++ l2)
        end
    | (Raise e, fs1, l1) => (Raise e, fs1, l1)
    end.

(** [try: m  except Exception as e: h e] *)
Definition try_except {A} (m : M A) (h : exn → M A) : M A :=
  λ fs,
    match m fs with
    | (Return a, fs1, l1) => (Return a, fs1, l1)
    | (Raise e, fs1, l1) =>
        match h e fs1 with
        | (r, fs2, l2) => (r, fs2, l1 ++ l2)
        end
    end.

Notation "'let*' x := m 'in' k" := (bind m (λ x, k))
  (at level 10, x name, m at level 100, k at level 200).
Notation "m ;; k" := (bind m (λ _, k))
  (at level 100, k at level 200, right associativity).

Definition lift {A} (r : outcome A) : M A := λ fs, (r, fs, []).

Definition emit (e : event) : M unit := λ fs, (Return tt, fs, [e]).

(** [time.sleep(seconds)] *)
Definition sleep (seconds : Z) : M unit := emit (Sleep seconds).

(** [save_to_file(content, filename)], and any [open(path, "w")] then
    [write]. *)
Definition save_to_file (content filename : string) : M unit :=
  λ fs, (Return tt, <[filename := content]> fs, [WriteFile filename content]).

(** [os.path.exists(path)] *)
Definition path_exists (path : string) : M bool :=
  λ fs, (Return (bool_decide (is_Some (fs !! path))), fs, []).

(** [open(path).read()] *)
Definition read_file (path : string) : M string :=
  λ fs,
    match fs !! path with
    | Some content => (Return content, fs, [])
    | None => (Raise (FileNotFoundError path), fs, [])
    end.

(** [os.remove(path)] *)
Definition os_remove (path : string) : M unit :=
  λ fs,
    match fs !! path with
    | Some _ => (Return tt, delete path fs, [RemoveFile path])
    | None => (Raise (FileNotFoundError path), fs, [])
    end.

(** [for x in l: f x] *)
Fixpoint for_each {A} (f : A → M unit) (l : list A) : M unit :=
  match l with
  | [] => ret tt
  | x :: rest => f x ;; for_each f rest
  end.

(** ** The functions the two scripts share *)

(** The four paths of a script. *)
Record Paths := {
  podcast_file : string;
  show_notes_file : string;
  conversation_file : string;
  last_run_file : string;
}.

(** One line of the dialogue, ready for synthesis. *)
Record task := {
  task_text : value;
  task_voice : string;
  task_output : string;
}.

(** ["en-GB-RyanNeural" if item["speaker"] == "Brian" else
    "en-US-AvaMultilingualNeural"] *)
Definition select_voice (speaker : value) : string :=
  if eq_str speaker "Brian" then "en-GB-RyanNeural"
  else "en-US-AvaMultilingualNeural".

(** [f"audio_{i}.mp3"] *)
Definition output_name (i : nat) : string :=
  "audio_" +:+ pretty i +:+ ".mp3".

(** The body of the loop of [generate_audio_parallel] for line [i]. *)
Definition line_task (i : nat) (item : value) : outcome task :=
  match subscript item "text" with
  | Raise e => Raise e
  | Return text =>
      match subscript item "speaker" with
      | Raise e => Raise e
      | Return speaker =>
          Return {| task_text := text;
                    task_voice := select_voice speaker;
                    task_output := output_name i |}
      end
  end.

(** [for i, item in enumerate(...)], from index [i] on. *)
Fixpoint line_tasks (i : nat) (lines : list value) : outcome (list task) :=
  match lines with
  | [] => Return []
  | item :: rest =>
      match line_task i item with
      | Raise e => Raise e
      | Return t =>
          match line_tasks (S i) rest with
          | Raise e => Raise e
          | Return ts => Return (t :: ts)
          end
      end
  end.

Section Scripts.

Context (w : World).

(** What both scripts do with the text of a reply: [re.search] with the
    pattern, [json.loads] on the match, [ValueError] when there is none. *)
Definition extract_json (content : string) : outcome value :=
  match Re.search pattern content with
  | Some json_match =>
      match json_loads w json_match with
      | Some parsed => Return parsed
      | None => Raise JSONDecodeError
      end
  | None => Raise (ValueError "No valid JSON found in response")
  end.

(** What the request of the given attempt comes to, effects apart. *)
Definition answer (attempt : Z) (text : string) (items : list PaperItem)
  : outcome value :=
  match completion w attempt (build_prompt text items) with
  | None => Raise APIError
  | Some content => extract_json content
  end.

(** The request and the extraction, as both scripts write them. *)
Definition request_conversation (attempt : Z) (text : string)
    (items : list PaperItem) : M value :=
  emit (Completion attempt (build_prompt text items)) ;;
  lift (answer attempt text items).

Definition synthesize (t : task) : option string :=
  tts w (task_text t) (task_voice t).

Fixpoint synthesize_all (tasks : list task) : option (list string) :=
  match tasks with
  | [] => Some []
  | t :: rest =>
      match synthesize t, synthesize_all rest with
      | Some clip, Some clips => Some (clip :: clips)
      | _, _ => None
      end
  end.

Fixpoint save_clips (tasks : list task) (clips : list string) : M unit :=
  match tasks, clips with
  | t :: tasks', clip :: clips' =>
      save_to_file clip (task_output t) ;; save_clips tasks' clips'
  | _, _ => ret tt
  end.

(** What an abandoned batch leaves behind, from task [i] on. *)
Fixpoint abandon (i : nat) (tasks : list task) : M unit :=
  match tasks with
  | [] => ret tt
  | t :: rest =>
      match leftover w i with
      | Some partial => save_to_file partial (task_output t)
      | None => ret tt
      end ;;
      abandon (S i) rest
  end.

(** [await asyncio.gather] on the tasks: the requests run together.  When all
    succeed every clip is on disk; when one raises, the batch is abandoned
    and the exception reaches the caller. *)
Definition gather (tasks : list task) : M unit :=
  match synthesize_all tasks with
  | Some clips => save_clips tasks clips
  | None => abandon 0 tasks ;; raise NoAudioReceived
  end.

Definition generate_audio_parallel (conversation : value) : M (list string) :=
  let* dialogue := lift (subscript conversation "conversation") in
  let* lines := lift (iterate dialogue) in
  let* tasks := lift (line_tasks 0 lines) in
  gather tasks ;;
  ret (map task_output tasks).

(** [AudioSegment.from_file(file)] *)
Definition from_file (file : string) : M AudioSegment :=
  let* content := read_file file in
  match decode w content with
  | Some audio => ret audio
  | None => raise CouldntDecodeError
  end.

(** [for file in audio_files: combined += AudioSegment.from_file(file)] *)
Fixpoint merge_loop (combined : AudioSegment) (audio_files : list string)
  : M AudioSegment :=
  match audio_files with
  | [] => ret combined
  | file :: rest =>
      let* audio := from_file file in
      merge_loop (seg_add combined audio) rest
  end.

(** [combined.export(output_file, format="mp3")] *)
Definition export (combined : AudioSegment) (output_file : string) : M unit :=
  match encode w combined with
  | Some mp3 => save_to_file mp3 output_file
  | None =>
      match failed_export w with
      | Some partial => save_to_file partial output_file
      | None => ret tt
      end ;;
      raise CouldntEncodeError
  end.

Definition merge_audio_files (audio_files : list string)
    (output_file : string) : M unit :=
  let* combined := merge_loop seg_empty audio_files in
  export combined output_file.

(** The gate at the head of the cycle: the marker exists and, stripped,
    is today's date. *)
Definition already_generated_today (marker : string) : M bool :=
  let* present := path_exists marker in
  if present then
    let* last_run_date := read_file marker in
    ret (String.eqb (strip last_run_date) (strftime_Ymd (today_at_gate w)))
  else ret false.

(** What both scripts do once the gate is passed.  They differ in the
    paths, in how the conversation is obtained and in what follows the
    marker. *)
Definition generation (p : Paths) (extract : M value) (publish : M unit)
  : M unit :=
  let* conversation := extract in
  save_to_file (json_dumps w conversation) (conversation_file p) ;;
  save_to_file (generate_show_notes (items w)) (show_notes_file p) ;;
  let* audio_files := generate_audio_parallel conversation in
  merge_audio_files audio_files (podcast_file p) ;;
  for_each os_remove audio_files ;;
  save_to_file (strftime_Ymd (today_at_end w)) (last_run_file p) ;;
  publish.

(** The cycle: nothing when the marker is of today, the generation
    otherwise. *)
Definition daily_cycle (p : Paths) (extract : M value) (publish : M unit)
  : M unit :=
  let* skip := already_generated_today (last_run_file p) in
  if skip then ret tt else generation p extract publish.

End Scripts.

(** ** [app.py] *)

Module App.

Definition PODCAST_FILE : string := "merged_audio.mp3".
Definition SHOW_NOTES_FILE : string := "show_notes.txt".
Definition CONVERSATION_FILE : string := "conversation.json".
Definition LAST_RUN_FILE : string := "last_run.txt".

Definition paths : Paths :=
  {| podcast_file := PODCAST_FILE;
     show_notes_file := SHOW_NOTES_FILE;
     conversation_file := CONVERSATION_FILE;
     last_run_file := LAST_RUN_FILE |}.

Section WithWorld.

Context (w : World).

(** The loop of [extract_conversation] over the attempts still to make.
    Leaving the loop without a [return] makes the function return
    [None]. *)
Fixpoint extract_loop (text : string) (items : list PaperItem)
    (max_retries : Z) (attempts : list Z) : M value :=
  match attempts with
  | [] => ret JNull
  | attempt :: rest =>
      try_except (request_conversation w attempt text items)
        (λ _,
           if (attempt <? max_retries)%Z
           then sleep 2 ;; extract_loop text items max_retries rest
           else raise (RuntimeError ("Failed after " +:+ pretty max_retries
                                       +:+ " attempts.")))
  end.

Definition extract_conversation (text : string) (items : list PaperItem)
    (max_retries : Z) : M value :=
  extract_loop text items max_retries (range 1 (max_retries + 1)).

(** [max_retries=3] *)
Definition default_max_retries : Z := 3.

Definition generate_podcast : M unit :=
  daily_cycle w paths
    (extract_conversation (daily_feed w) (items w) default_max_retries)
    (ret tt).

(** The handler of the button "Force Generate Podcast":
    [asyncio.run(generate_podcast())], after which the page is run
    again. *)
Definition force_generate : M unit := generate_podcast.

End WithWorld.

End App.

(** ** [cloudflare_app.py] *)

Module Cloudflare.

Definition PODCAST_FILE : string := "daily_podcast.mp3".
Definition SHOW_NOTES_FILE : string := "daily_show_notes.txt".
Definition CONVERSATION_FILE : string := "daily_conversation.json".
Definition LAST_RUN_FILE : string := "last_run.txt".

Definition paths : Paths :=
  {| podcast_file := PODCAST_FILE;
     show_notes_file := SHOW_NOTES_FILE;
     conversation_file := CONVERSATION_FILE;
     last_run_file := LAST_RUN_FILE |}.

Section WithWorld.

Context (w : World).

(** No loop here: one request, and its exception goes to the caller. *)
Definition extract_conversation (text : string) (items : list PaperItem)
  : M value :=
  request_conversation w 1 text items.

Definition upload_to_r2 (filename bucket_name : string) : M unit :=
  emit (Upload filename bucket_name (basename filename)) ;;
  if upload_ok w filename then ret tt else raise UploadError.

(** The three calls that end the cycle. *)
Definition uploads : M unit :=
  upload_to_r2 PODCAST_FILE (bucket w) ;;
  upload_to_r2 SHOW_NOTES_FILE (bucket w) ;;
  upload_to_r2 CONVERSATION_FILE (bucket w).

Definition run_podcast_generation : M unit :=
  daily_cycle w paths
    (extract_conversation (daily_feed w) (items w))
    uploads.

End WithWorld.

End Cloudflare.

(** ** Reading a run *)

(** The path an effect changes, if it changes one. *)
Definition target (e : event) : option string :=
  match e with
  | WriteFile path _ => Some path
  | RemoveFile path => Some path
  | _ => None
  end.

(** The file system after the effects, in their order. *)
Definition replay_event (fs : files) (e : event) : files :=
  match e with
  | WriteFile path content => <[path := content]> fs
  | RemoveFile path => delete path fs
  | _ => fs
  end.

Definition replay (events : list event) (fs : files) : files :=
  fold_left replay_event events fs.

Definition is_request (e : event) : Prop :=
  match e with Completion _ _ | Sleep _ => True | _ => False end.

Definition is_clip_write (e : event) : Prop :=
  match e with WriteFile path _ => ∃ i, path = output_name i | _ => False end.

Definition is_clip_remove (e : event) : Prop :=
  match e with RemoveFile path => ∃ i, path = output_name i | _ => False end.

Definition is_upload (e : event) : Prop :=
  match e with Upload _ _ _ => True | _ => False end.

(** The effects of a computation all satisfy [P], and the file system it
    leaves is the one it found with these effects applied. *)
Definition within {A} (P : event → Prop) (m : M A) : Prop :=
  ∀ fs r fs' events,
    m fs = (r, fs', events) → Forall P events ∧ fs' = replay events fs.

(** The gate, read off the file system: the marker is there and, stripped,
    it is the date of the day. *)
Definition fresh (w : World) (marker : string) (fs : files) : bool :=
  match fs !! marker with
  | Some last_run_date =>
      String.eqb (strip last_run_date) (strftime_Ymd (today_at_gate w))
  | None => false
  end.

(** The four paths are distinct and none is the name of a clip. *)
Definition paths_apart (p : Paths) : Prop :=
  NoDup [conversation_file p; show_notes_file p; podcast_file p;
         last_run_file p]
  ∧ ∀ i, output_name i ∉ [conversation_file p; show_notes_file p;
                           podcast_file p; last_run_file p].

(** The outputs of the tasks are names of clips. *)
Definition clip_outputs (tasks : list task) : Prop :=
  Forall (λ t, ∃ i, task_output t = output_name i) tasks.

(** The two ways a cycle that passed the gate can go.  Either it stops on an
    exception before the marker: the marker is not written.  Or it reaches
    the marker: by then the conversation, the show notes and the episode have
    been written, in this order, the clips are removed, the marker holds the
    date of the day, and only uploads follow. *)
Inductive cycle_run (w : World) (p : Paths) (fs : files)
  : outcome unit → files → list event → Prop :=
| cycle_aborted (e : exn) (fs' : files) (events : list event) :
    Forall (λ ev, target ev ≠ Some (last_run_file p)) events →
    fs' !! last_run_file p = fs !! last_run_file p →
    cycle_run w p fs (Raise e) fs' events
| cycle_completed (r : outcome unit) (fs' : files) (conversation : value)
    (mp3 : string) (requests clips removed published : list event) :
    Forall is_request requests →
    Forall is_clip_write clips →
    Forall is_clip_remove removed →
    Forall is_upload published →
    r = Return tt ∨ (r = Raise UploadError ∧ published ≠ []) →
    fs' !! conversation_file p = Some (json_dumps w conversation) →
    fs' !! show_notes_file p = Some (generate_show_notes (items w)) →
    fs' !! podcast_file p = Some mp3 →
    fs' !! last_run_file p = Some (strftime_Ymd (today_at_end w)) →
    cycle_run w p fs r fs'
      (requests
         ++ [WriteFile (conversation_file p) (json_dumps w conversation);
             WriteFile (show_notes_file p) (generate_show_notes (items w))]
         ++ clips
         ++ [WriteFile (podcast_file p) mp3]
         ++ removed
         ++ [WriteFile (last_run_file p) (strftime_Ymd (today_at_end w))]
         ++ published).

(** ** Reading the dialogue *)

(** A line that has a speaker and a text. *)
Definition has_fields (item : value) (line : value * value) : Prop :=
  subscript item "speaker" = Return (fst line)
  ∧ subscript item "text" = Return (snd line).

(** A file that is there and decodes to the clip. *)
Definition readable (w : World) (fs : files) (file : string)
    (clip : AudioSegment) : Prop :=
  ∃ content, fs !! file = Some content ∧ decode w content = Some clip.

(** The task of line [i], from the speaker and the text found in it. *)
Definition spoken_task (i : nat) (line : value * value) : task :=
  {| task_text := snd line;
     task_voice := select_voice (fst line);
     task_output := output_name i |}.

(** The frames of the clips one after the other, nothing between them. *)
Fixpoint track (clips : list AudioSegment) : string :=
  match clips with
  | [] => ""
  | clip :: rest => raw_data clip +:+ track rest
  end.

Definition is_digit (c : ascii) : bool :=
  Re.mem c ["0"; "1"; "2"; "3"; "4"; "5"; "6"; "7"; "8"; "9"]%char.

(** ** The effects of the retry loop *)

(** [failures] requests from [attempt] on, each followed by the wait. *)
Fixpoint retry_events (prompt : string) (delay : Z) (attempt : Z)
    (failures : nat) : list event :=
  match failures with
  | O => []
  | S n =>
      Completion attempt prompt :: Sleep delay
        :: retry_events prompt delay (attempt + 1) n
  end.

(** [attempts] requests from [attempt] on with the wait between consecutive
    ones and none after the last. *)
Fixpoint exhausted_events (prompt : string) (delay : Z) (attempt : Z)
    (attempts : nat) : list event :=
  match attempts with
  | O => []
  | S n =>
      Completion attempt prompt ::
        match n with
        | O => []
        | S _ => Sleep delay :: exhausted_events prompt delay (attempt + 1) n
        end
  end.

Definition is_completion (e : event) : bool :=
  match e with Completion _ _ => true | _ => false end.

Definition is_sleep (e : event) : bool :=
  match e with Sleep _ => true | _ => false end.

(** The exception with which [app.py] gives up. *)
Definition exhausted (max_retries : Z) : exn :=
  RuntimeError ("Failed after " +:+ pretty max_retries +:+ " attempts.").

(** ** The retry contract in the words of the specification

    The conversation generator of the specification makes attempts 1 to
    [max_attempts], waits a fixed delay before each retry and fails once no
    attempt remains; the number of attempts and the delay are both
    parameters.  What such a generator does when every attempt fails: *)

Module Spec.

Definition generate_conversation_exhausted (prompt : string)
    (max_attempts delay : Z) : outcome value * list event :=
  (Raise (exhausted max_attempts),
   exhausted_events prompt delay 1 (Z.to_nat max_attempts)).

End Spec.

(** ** A reference decoder and printer for the examples

    [json] is a library, so the theorems take [json.loads] and [json.dumps]
    from the world.  The examples need concrete ones: [Json.loads] decodes
    the texts made of objects, arrays, strings with the short escapes,
    integers and the three literals, and rejects every other text;
    [Json.dumps] prints such values the way [indent=2] does, for strings of
    printable ASCII. *)

Module Json.

Definition is_ws (c : ascii) : bool :=
  Re.mem c [" "%char; ascii_of_nat 9; ascii_of_nat 10; ascii_of_nat 13].

Fixpoint skip_ws (s : string) : string :=
  match s with
  | String c s' => if is_ws c then skip_ws s' else s
  | EmptyString => s
  end.

Definition backslash : ascii := ascii_of_nat 92.
Definition quote : ascii := ascii_of_nat 34.

Definition unescape (c : ascii) : option ascii :=
  if Ascii.eqb c quote then Some quote
  else if Ascii.eqb c backslash then Some backslash
  else if Ascii.eqb c "/" then Some "/"%char
  else if Ascii.eqb c "b" then Some (ascii_of_nat 8)
  else if Ascii.eqb c "f" then Some (ascii_of_nat 12)
  else if Ascii.eqb c "n" then Some (ascii_of_nat 10)
  else if Ascii.eqb c "r" then Some (ascii_of_nat 13)
  else if Ascii.eqb c "t" then Some (ascii_of_nat 9)
  else None.

(** The characters of a string after its opening quote, up to the closing
    one; [acc] holds what was read, last character first. *)
Fixpoint string_body (acc : string) (s : string) : option (string * string) :=
  match s with
  | EmptyString => None
  | String c s' =>
      if Ascii.eqb c quote then Some (String.rev acc, s')
      else if Ascii.eqb c backslash then
        match s' with
        | String e s'' =>
            match unescape e with
            | Some c' => string_body (String c' acc) s''
            | None => None
            end
        | EmptyString => None
        end
      else if (nat_of_ascii c <? 32)%nat then None
      else string_body (String c acc) s'
  end.

Definition digit_value (c : ascii) : option Z :=
  let n := nat_of_ascii c in
  if ((48 <=? n) && (n <=? 57))%nat then Some (Z.of_nat (n - 48)) else None.

Fixpoint digits (acc : Z) (s : string) : Z * string :=
  match s with
  | String c s' =>
      match digit_value c with
      | Some d => digits (10 * acc + d) s'
      | None => (acc, s)
      end
  | EmptyString => (acc, s)
  end.

(** An integer: [0] or a non-zero digit and more digits, with no fraction
    or exponent after it. *)
Definition natural (s : string) : option (Z * string) :=
  match s with
  | String c s' =>
      match digit_value c with
      | Some d =>
          let '(n, rest) := if (d =? 0)%Z then (0%Z, s') else digits d s' in
          match rest with
          | String c' _ =>
              if Re.mem c' ["."%char; "e"%char; "E"%char] then None
              else Some (n, rest)
          | EmptyString => Some (n, rest)
          end
      | None => None
      end
  | EmptyString => None
  end.

Fixpoint decode_value (fuel : nat) (s : string) : option (value * string) :=
  match fuel with
  | O => None
  | S fuel' =>
      match skip_ws s with
      | EmptyString => None
      | String c s' =>
          if Ascii.eqb c lbrace then
            match skip_ws s' with
            | String c' s'' =>
                if Ascii.eqb c' rbrace then Some (JObj [], s'')
                else decode_members fuel' [] (String c' s'')
            | EmptyString => None
            end
          else if Ascii.eqb c "[" then
            match skip_ws s' with
            | String c' s'' =>
                if Ascii.eqb c' "]" then Some (JArr [], s'')
                else decode_elements fuel' [] (String c' s'')
            | EmptyString => None
            end
          else if Ascii.eqb c quote then
            match string_body EmptyString s' with
            | Some (str, rest) => Some (JStr str, rest)
            | None => None
            end
          else if Ascii.eqb c "-" then
            match natural s' with
            | Some (n, rest) => Some (JInt (- n), rest)
            | None => None
            end
          else
            match drop_prefix "true" (String c s'),
                  drop_prefix "false" (String c s'),
                  drop_prefix "null" (String c s') with
            | Some rest, _, _ => Some (JBool true, rest)
            | _, Some rest, _ => Some (JBool false, rest)
            | _, _, Some rest => Some (JNull, rest)
            | _, _, _ =>
                match natural (String c s') with
                | Some (n, rest) => Some (JInt n, rest)
                | None => None
                end
            end
      end
  end
(** the elements of an array, after [[] or a comma; [acc] last first *)
with decode_elements (fuel : nat) (acc : list value) (s : string)
  : option (value * string) :=
  match fuel with
  | O => None
  | S fuel' =>
      match decode_value fuel' s with
      | Some (v, rest) =>
          match skip_ws rest with
          | String c rest' =>
              if Ascii.eqb c "," then decode_elements fuel' (v :: acc) rest'
              else if Ascii.eqb c "]" then Some (JArr (rev (v :: acc)), rest')
              else None
          | EmptyString => None
          end
      | None => None
      end
  end
(** the members of an object, after [{] or a comma *)
with decode_members (fuel : nat) (acc : list (string * value)) (s : string)
  : option (value * string) :=
  match fuel with
  | O => None
  | S fuel' =>
      match skip_ws s with
      | String q s1 =>
          if Ascii.eqb q quote then
            match string_body EmptyString s1 with
            | Some (key, s2) =>
                match skip_ws s2 with
                | String colon s3 =>
                    if Ascii.eqb colon ":" then
                      match decode_value fuel' s3 with
                      | Some (v, rest) =>
                          match skip_ws rest with
                          | String c rest' =>
                              if Ascii.eqb c "," then
                                decode_members fuel' (dict_set key v acc) rest'
                              else if Ascii.eqb c rbrace then
                                Some (JObj (dict_set key v acc), rest')
                              else None
                          | EmptyString => None
                          end
                      | None => None
                      end
                    else None
                | EmptyString => None
                end
            | None => None
            end
          else None
      | EmptyString => None
      end
  end.

(** One value, with white space around it and nothing else. *)
Definition loads (s : string) : option value :=
  match decode_value (S (String.length s)) s with
  | Some (v, rest) =>
      match skip_ws rest with
      | EmptyString => Some v
      | String _ _ => None
      end
  | None => None
  end.

Definition escape (c : ascii) : string :=
  if Ascii.eqb c quote then String backslash (String quote EmptyString)
  else if Ascii.eqb c backslash then
    String backslash (String backslash EmptyString)
  else if Ascii.eqb c (ascii_of_nat 10) then String backslash "n"
  else if Ascii.eqb c (ascii_of_nat 13) then String backslash "r"
  else if Ascii.eqb c (ascii_of_nat 9) then String backslash "t"
  else String c EmptyString.

Fixpoint escaped (s : string) : string :=
  match s with
  | EmptyString => EmptyString
  | String c s' => escape c +:+ escaped s'
  end.

Definition quoted (s : string) : string := dq +:+ escaped s +:+ dq.

Fixpoint indent (level : nat) : string :=
  match level with
  | O => ""
  | S l => "  " +:+ indent l
  end.

Fixpoint dumps_at (level : nat) (v : value) : string :=
  match v with
  | JNull => "null"
  | JBool true => "true"
  | JBool false => "false"
  | JInt n => pretty n
  | JFloat literal => literal
  | JStr s => quoted s
  | JArr [] => "[]"
  | JArr elements =>
      "[" +:+ nl +:+
      join ("," +:+ nl)
        (map (λ x, indent (S level) +:+ dumps_at (S level) x) elements)
      +:+ nl +:+ indent level +:+ "]"
  | JObj [] => "{}"
  | JObj fields =>
      String lbrace nl +:+
      join ("," +:+ nl)
        (map (λ '(k, x), indent (S level) +:+ quoted k +:+ ": "
                          +:+ dumps_at (S level) x) fields)
      +:+ nl +:+ indent level +:+ String rbrace EmptyString
  end.

Definition dumps (v : value) : string := dumps_at 0 v.

End Json.

(** ** Example worlds *)

Module Demo.

Definition quoted (s : string) : string := dq +:+ s +:+ dq.

Definition papers : list PaperItem :=
  [ {| title := "Sparse Attention at Scale";
       link := "https://example.org/papers/1";
       description := "Fewer keys, same quality." |};
    {| title := "Learning to Retrieve";
       link := "https://example.org/papers/2";
       description := "A retriever trained end to end." |} ].

(** One line of a dialogue, as the model writes it. *)
Definition line (speaker text : string) : string :=
  String lbrace EmptyString +:+ quoted "speaker" +:+ ": " +:+ quoted speaker
  +:+ ", " +:+ quoted "text" +:+ ": " +:+ quoted text
  +:+ String rbrace EmptyString.

(** The object the prompt asks for. *)
Definition script (lines : list string) : string :=
  String lbrace EmptyString +:+ quoted "conversation" +:+ ": ["
  +:+ join ", " lines +:+ "]" +:+ String rbrace EmptyString.

(** A reply with prose around the object. *)
Definition reply (lines : list string) : string :=
  "Sure! Here is the script: " +:+ script lines +:+ " Enjoy the show.".

Definition two_lines : list string :=
  [line "Brian" "Welcome back."; line "Jenny" "Two papers today."].

(** The second line has no text, and the speech service refuses it. *)
Definition silent_line : list string :=
  [line "Brian" "Welcome back."; line "Jenny" ""].

(** The two lines once decoded, and the object that holds them. *)
Definition spoken (speaker text : string) : value :=
  JObj [("speaker", JStr speaker); ("text", JStr text)].

Definition dialogue : value :=
  JArr [spoken "Brian" "Welcome back."; spoken "Jenny" "Two papers today."].

Definition parsed_reply : value := JObj [("conversation", dialogue)].

(** A line that carries an object of its own, and the reply made of it:
    one balanced object, three braces deep. *)
Definition nested_line : string :=
  String lbrace EmptyString +:+ quoted "speaker" +:+ ": " +:+ quoted "Brian"
  +:+ ", " +:+ quoted "text" +:+ ": " +:+ quoted "Welcome back."
  +:+ ", " +:+ quoted "source" +:+ ": " +:+ String lbrace EmptyString
  +:+ quoted "paper" +:+ ": 1" +:+ String rbrace (String rbrace EmptyString).

Definition nested_reply : string := script [nested_line].

Definition nested_line_parsed : value :=
  JObj [("speaker", JStr "Brian"); ("text", JStr "Welcome back.");
        ("source", JObj [("paper", JInt 1)])].

Definition nested_parsed : value :=
  JObj [("conversation", JArr [nested_line_parsed])].

(** The reply with the silent line, decoded, and the tasks made of it. *)
Definition silent_parsed : value :=
  JObj [("conversation",
         JArr [spoken "Brian" "Welcome back."; spoken "Jenny" ""])].

Definition silent_tasks : list task :=
  [ {| task_text := JStr "Welcome back.";
       task_voice := "en-GB-RyanNeural";
       task_output := "audio_0.mp3" |};
    {| task_text := JStr "";
       task_voice := "en-US-AvaMultilingualNeural";
       task_output := "audio_1.mp3" |} ].

(** A speech service that refuses an empty text. *)
Definition speak (text : value) (voice : string) : option string :=
  match text with
  | JStr s =>
      if String.eqb s "" then None
      else Some ("<" +:+ voice +:+ "|" +:+ s +:+ ">")
  | _ => None
  end.

(** A codec that keeps the bytes and refuses an empty file. *)
Definition read_audio (content : string) : option AudioSegment :=
  if String.eqb content "" then None else Some {| raw_data := content |}.

Definition write_audio (audio : AudioSegment) : option string :=
  Some (raw_data audio).

Definition nov_2 : date := {| year := 2026; month := 11; day := 2 |}.
Definition nov_3 : date := {| year := 2026; month := 11; day := 3 |}.

(** The world in which the model answers [answers attempt] and the day is
    [today] throughout the run. *)
Definition world (answers : Z → option string) (today : date) : World :=
  {| items := papers;
     completion := λ attempt _, answers attempt;
     json_loads := Json.loads;
     json_dumps := Json.dumps;
     tts := speak;
     leftover := λ _, None;
     decode := read_audio;
     encode := write_audio;
     failed_export := None;
     today_at_gate := today;
     today_at_end := today;
     bucket := "podcast";
     upload_ok := λ _, true |}.

(** The model answers with the two lines, whatever the attempt. *)
Definition answered : World := world (λ _, Some (reply two_lines)) nov_3.

(** The model never writes an object. *)
Definition unanswered : World :=
  world (λ _, Some "I cannot help with that.") nov_3.

(** The model answers at the second attempt. *)
Definition answered_late : World :=
  world (λ attempt, if (attempt =? 1)%Z then Some "One moment, please."
                    else Some (reply two_lines)) nov_3.

(** The model writes a line the speech service refuses. *)
Definition refused : World := world (λ _, Some (reply silent_line)) nov_3.

(** What a successful run of the day before has left. *)
Definition yesterday : files :=
  {[ "conversation.json" := "{}";
     "show_notes.txt" := "**Show Notes**";
     "merged_audio.mp3" := "<yesterday>";
     "last_run.txt" := "2026-11-02" ]}.

(** The same files once today's run has succeeded. *)
Definition generated_today : files :=
  <["last_run.txt" := "2026-11-03"]> yesterday.

End Demo.

(** * Further definitions *)

(** ** The show notes, entry by entry *)

Definition notes_header : string :=
  "**Show Notes**" +:+ nl +:+ nl +:+ "In today's episode:" +:+ nl +:+ nl.

(** The entries of the items, numbered from [i + 1] on. *)
Fixpoint numbered_entries (i : nat) (items : list PaperItem) : string :=
  match items with
  | [] => ""
  | item :: rest => show_note i item +:+ numbered_entries (S i) rest
  end.

(** ** The effects of a generation that succeeds *)

(** The clips saved by the batch, one per line. *)
Definition clip_writes (audio : list string) : list event :=
  imap (λ i bytes, WriteFile (output_name i) bytes) audio.

(** The clips removed after the merge. *)
Definition clip_removals (n : nat) : list event :=
  map (λ i, RemoveFile (output_name i)) (seq 0 n).

(** The request of a line reaches the speech service with the text of the
    line and the voice of its speaker, and yields the bytes. *)
Definition spoken_as (w : World) (line : value * value) (bytes : string)
  : Prop :=
  tts w (snd line) (select_voice (fst line)) = Some bytes.

(** The stages after the extraction succeed on [conversation]: it holds a
    list of lines, every line has a speaker and a text, the speech service
    yields the bytes of every line, every clip decodes, and the track of the
    clips is exported as [mp3]. *)
Definition stages_succeed (w : World) (conversation : value)
    (lines : list value) (audio : list string) (mp3 : string) : Prop :=
  subscript conversation "conversation" = Return (JArr lines)
  ∧ ∃ (spoken : list (value * value)) (clips : list AudioSegment),
      Forall2 has_fields lines spoken
      ∧ Forall2 (spoken_as w) spoken audio
      ∧ Forall2 (λ bytes clip, decode w bytes = Some clip) audio clips
      ∧ encode w {| raw_data := track clips |} = Some mp3.

(** The effects of a generation in which every stage succeeds, up to the
    marker: the requests, the conversation, the show notes, the clips, the
    episode, the removal of the clips, the marker. *)
Definition full_cycle (w : World) (p : Paths) (requests : list event)
    (conversation : value) (audio : list string) (mp3 : string)
  : list event :=
  requests
    ++ [WriteFile (conversation_file p) (json_dumps w conversation);
        WriteFile (show_notes_file p) (generate_show_notes (items w))]
    ++ clip_writes audio
    ++ [WriteFile (podcast_file p) mp3]
    ++ clip_removals (List.length audio)
    ++ [WriteFile (last_run_file p) (strftime_Ymd (today_at_end w))].


(** [s] with the texts of [before] in front of it and those of [after]
    behind it. *)
Definition padded (before : list string) (s : string) (after : list string)
  : string :=
  foldr String.append (s +:+ foldr String.append "" after) before.

(** ** The uploads of [cloudflare_app.py] *)

(** The uploads in the order of the script, each under the name of its
    file. *)
Definition all_uploads (w : World) : list event :=
  [Upload Cloudflare.PODCAST_FILE (bucket w) "daily_podcast.mp3";
   Upload Cloudflare.SHOW_NOTES_FILE (bucket w) "daily_show_notes.txt";
   Upload Cloudflare.CONVERSATION_FILE (bucket w) "daily_conversation.json"].

(** ** The page of [app.py]

    What the script shows between its two dividers, as the list of the
    elements it displays, in order, and the exception that stops it, if any.
    The elements above the first divider and below the second do not depend
    on the files.  [str] of a value
    that is not a string, and whether a float is zero, are left to the two
    parameters; a text file is read with the newlines translated. *)

Module Page.

Inductive element : Type :=
| Subheader (text : string)
| Audio (data : string)
| Warning (text : string)
| Markdown (text : string)
| Written (text : string).

(** What [read] returns for a file opened in text mode: a carriage return,
    with or without the line feed after it, is a line feed. *)
Fixpoint universal_newlines (s : string) : string :=
  match s with
  | EmptyString => EmptyString
  | String c s' =>
      if Ascii.eqb c (ascii_of_nat 13) then
        String (ascii_of_nat 10)
          match s' with
          | String c' s'' =>
              if Ascii.eqb c' (ascii_of_nat 10) then universal_newlines s''
              else universal_newlines s'
          | EmptyString => EmptyString
          end
      else String c (universal_newlines s')
  end.

Section Rendering.

Context (w : World) (py_str : value → string) (float_nonzero : string → bool).

(** [load_conversation()] *)
Definition load_conversation (fs : files) : outcome value :=
  match fs !! App.CONVERSATION_FILE with
  | Some content =>
      match json_loads w (universal_newlines content) with
      | Some data => Return data
      | None => Raise JSONDecodeError
      end
  | None => Return JNull
  end.

(** The truth value of [if conversation_data:]. *)
Definition truthy (v : value) : bool :=
  match v with
  | JNull => false
  | JBool b => b
  | JInt n => negb (n =? 0)%Z
  | JFloat literal => float_nonzero literal
  | JStr s => negb (String.eqb s "")
  | JArr elements => match elements with [] => false | _ => true end
  | JObj fields => match fields with [] => false | _ => true end
  end.

(** A field inside an f-string: a string as it is, [str] of anything else. *)
Definition formatted (v : value) : string :=
  match v with
  | JStr s => s
  | _ => py_str v
  end.

(** [f"**{msg['speaker']}**: {msg['text']}"] *)
Definition message_line (msg : value) : outcome string :=
  match subscript msg "speaker" with
  | Raise e => Raise e
  | Return speaker =>
      match subscript msg "text" with
      | Raise e => Raise e
      | Return text =>
          Return ("**" +:+ formatted speaker +:+ "**: " +:+ formatted text)
      end
  end.

(** [for msg in ...: st.write(...)] *)
Fixpoint write_messages (msgs : list value) : outcome unit * list element :=
  match msgs with
  | [] => (Return tt, [])
  | msg :: rest =>
      match message_line msg with
      | Raise e => (Raise e, [])
      | Return line =>
          match write_messages rest with
          | (r, shown) => (r, Written line :: shown)
          end
      end
  end.

(** The column of the conversation. *)
Definition conversation_column (conversation_data : value)
  : outcome unit * list element :=
  if truthy conversation_data then
    match subscript conversation_data "conversation" with
    | Raise e => (Raise e, [])
    | Return dialogue =>
        match iterate dialogue with
        | Raise e => (Raise e, [])
        | Return msgs => write_messages msgs
        end
    end
  else (Return tt, [Warning "No conversation data available."]).

(** The show notes the page displays. *)
Definition show_notes (fs : files) : string :=
  match fs !! App.SHOW_NOTES_FILE with
  | Some content => universal_newlines content
  | None => "**No show notes available.**"
  end.

(** The player, or the warning in its place. *)
Definition player (fs : files) : element :=
  match fs !! App.PODCAST_FILE with
  | Some audio_bytes => Audio audio_bytes
  | None => Warning "No podcast available. Please generate an episode."
  end.

(** The left column: the player and the show notes. *)
Definition left_column (fs : files) : list element :=
  [Subheader "🎧 Listen to the Podcast"; player fs;
   Subheader "📜 Show Notes"; Markdown (show_notes fs)].

Definition page (fs : files) : outcome unit * list element :=
  match load_conversation fs with
  | Raise e => (Raise e, [])
  | Return conversation_data =>
      match conversation_column conversation_data with
      | (r, shown) =>
          (r, left_column fs
                ++ [Subheader "🗨️ Podcast Conversation"] ++ shown)
      end
  end.

(** What the page writes for a line with this speaker and this text. *)
Definition spoken_line (line : value * value) : element :=
  Written ("**" +:+ formatted (fst line) +:+ "**: " +:+ formatted (snd line)).

End Rendering.

End Page.

(** ** More example replies *)

Module Scenes.

(** A reply cut off inside its object: no closing brace yet. *)
Definition cut_off_reply : string :=
  "Sure! Here is the script: " +:+ String lbrace EmptyString
  +:+ Demo.quoted "conversation" +:+ ": [" +:+ String lbrace EmptyString
  +:+ Demo.quoted "speaker" +:+ ": " +:+ Demo.quoted "Bri".

(** A dialogue whose second line has no text. *)
Definition missing_text : value :=
  JObj [("conversation",
         JArr [Demo.spoken "Brian" "Welcome back.";
               JObj [("speaker", JStr "Jenny")]])].


(** [str] of the scalars a field of the examples may hold; the examples
    have no float and no container there. *)
Definition str_of (v : value) : string :=
  match v with
  | JNull => "None"
  | JBool true => "True"
  | JBool false => "False"
  | JInt n => pretty n
  | JStr s => s
  | _ => ""
  end.

(** The examples hold no float where its truth value is asked. *)
Definition nonzero (literal : string) : bool := true.

(** The files after a run that wrote the conversation with the missing
    text and stopped before the first clip. *)
Definition after_missing_text : files :=
  <[App.SHOW_NOTES_FILE := generate_show_notes (items Demo.answered)]>
    (<[App.CONVERSATION_FILE := json_dumps Demo.answered missing_text]>
       Demo.yesterday).

End Scenes.

(** * Properties *)

(** ** Strings *)

Lemma string_app_cons (x : ascii) (a b : string) :
  String x a +:+ b = String x (a +:+ b).
Proof. reflexivity. Qed.

Lemma string_app_nil_l (a : string) : "" +:+ a = a.
Proof. reflexivity. Qed.

Lemma string_app_assoc (a b c : string) : (a +:+ b) +:+ c = a +:+ b +:+ c.
Proof.
  induction a as [|x a IH]; [done|]. by rewrite !string_app_cons, IH.
Qed.

Lemma string_app_nil_r (a : string) : a +:+ "" = a.
Proof. induction a as [|x a IH]; [done|]. by rewrite string_app_cons, IH. Qed.

Lemma string_length_app (a b : string) :
  String.length (a +:+ b) = (String.length a + String.length b)%nat.
Proof.
  induction a as [|x a IH]; [done|]. rewrite string_app_cons. simpl.
  by rewrite IH.
Qed.

Lemma contains_refl (s : string) : contains s s.
Proof. exists "", "". by rewrite string_app_nil_r. Qed.

Lemma contains_app_l (a b s : string) : contains a s → contains (a +:+ b) s.
Proof.
  intros (pre & post & ->). exists pre, (post +:+ b).
  by rewrite !string_app_assoc.
Qed.

Lemma contains_app_r (a b s : string) : contains b s → contains (a +:+ b) s.
Proof.
  intros (pre & post & ->). exists (a +:+ pre), post.
  by rewrite !string_app_assoc.
Qed.

Lemma contains_trans (t s u : string) :
  contains t s → contains s u → contains t u.
Proof.
  intros (p1 & q1 & ->) (p2 & q2 & ->). exists (p1 +:+ p2), (q2 +:+ q1).
  by rewrite !string_app_assoc.
Qed.

Create HintDb contains.
#[local] Hint Resolve contains_refl contains_app_l contains_app_r : contains.

Lemma join_contains (sep x : string) (l : list string) :
  x ∈ l → contains (join sep l) x.
Proof.
  induction l as [|y l IH]; intros Hin; [by apply not_elem_of_nil in Hin|].
  apply elem_of_cons in Hin as [->|Hin].
  - destruct l; simpl; auto with contains.
  - specialize (IH Hin). destruct l; [by apply not_elem_of_nil in Hin|].
    change (join sep (y :: s :: l)) with (y +:+ sep +:+ join sep (s :: l)).
    auto with contains.
Qed.

(** ** The prompt *)

Lemma paper_summary_contains (item : PaperItem) :
  contains (paper_summary item) (title item)
  ∧ contains (paper_summary item) (link item)
  ∧ contains (paper_summary item) (description item).
Proof. unfold paper_summary. repeat split; auto 10 with contains. Qed.

Lemma build_prompt_contains_summaries text items :
  contains (build_prompt text items) (paper_summaries items).
Proof. unfold build_prompt. auto with contains. Qed.

(** C8. The prompt holds the title, the link and the description of every
    item as they are, and the literal template; for an empty list it is the
    fixed text around an empty list of summaries, template included. *)
Theorem build_prompt_renders_every_item (text : string) (items : list PaperItem) :
  Forall (λ item,
            contains (build_prompt text items) (title item)
            ∧ contains (build_prompt text items) (link item)
            ∧ contains (build_prompt text items) (description item)) items
  ∧ contains (build_prompt text items) template
  ∧ build_prompt text [] = prompt_intro +:+ prompt_request +:+ template
  ∧ contains (build_prompt text []) template.
Proof.
  split; [|split; [|split]].
  - apply Forall_forall. intros item Hin.
    assert (contains (build_prompt text items) (paper_summary item)) as Hs.
    { eapply contains_trans; [apply build_prompt_contains_summaries|].
      apply join_contains, list_elem_of_fmap. eauto. }
    destruct (paper_summary_contains item) as (Ht & Hl & Hd).
    repeat split; eapply contains_trans; eauto.
  - unfold build_prompt. auto with contains.
  - reflexivity.
  - unfold build_prompt. auto with contains.
Qed.

(** C9. The prompt does not depend on the parameter [text]: for any two
    texts the prompts of the same items are equal, and the prompt is the
    fixed text around the summaries of the items. *)
Theorem build_prompt_ignores_text (t1 t2 : string) (items : list PaperItem) :
  build_prompt t1 items = build_prompt t2 items
  ∧ build_prompt t1 items
    = prompt_intro +:+ paper_summaries items +:+ prompt_request +:+ template.
Proof. split; reflexivity. Qed.

(** ** The pattern *)

(** The matcher only looks at what the continuation returns. *)
Lemma run_ext (r : Re.regex) : ∀ (s : string) (k1 k2 : string → option string),
  (∀ t, k1 t = k2 t) → Re.run r s k1 = Re.run r s k2.
Proof.
  induction r as [c|cs|r1 IH1 r2 IH2|r1 IH1 r2 IH2|r IH]; intros s k1 k2 Hk;
    cbn [Re.run].
  - destruct s as [|c' s]; [done|]. by destruct (Ascii.eqb c c').
  - destruct s as [|c' s]; [done|]. by destruct (Re.mem c' cs).
  - apply IH1. intros t. by apply IH2.
  - by rewrite (IH1 s k1 k2), (IH2 s k1 k2).
  - generalize (String.length s) as n. intros n. revert s.
    induction n as [|n IHn]; intros s; [apply Hk|].
    rewrite (IH s _ (λ s', if Nat.ltb (String.length s') (String.length s)
                           then (fix iterate (n : nat) (s : string) :=
                                   match n with
                                   | O => k2 s
                                   | S n' =>
                                       match Re.run r s
                                         (λ s', if Nat.ltb (String.length s')
                                                     (String.length s)
                                                then iterate n' s' else None)
                                       with
                                       | Some rest => Some rest
                                       | None => k2 s
                                       end
                                   end) n s'
                           else None)).
    + by rewrite Hk.
    + intros t. destruct (Nat.ltb _ _); [apply IHn | done].
Qed.

Lemma run_star (r : Re.regex) (s : string) (k : string → option string) :
  Re.run (Re.Star r) s k = Re.star_loop r k (String.length s) s.
Proof.
  cbn [Re.run]. generalize (String.length s) as n. intros n. revert s.
  induction n as [|n IHn]; intros s; [done|]. cbn [Re.star_loop].
  erewrite run_ext; [reflexivity|]. intros t. cbn beta.
  destruct (Nat.ltb _ _); [apply IHn | done].
Qed.

Lemma run_chr (c c' : ascii) (s : string) (k : string → option string) :
  Re.run (Re.Chr c) (String c' s) k = if Ascii.eqb c c' then k s else None.
Proof. reflexivity. Qed.

Lemma run_none_of (cs : list ascii) (c' : ascii) (s : string)
    (k : string → option string) :
  Re.run (Re.NoneOf cs) (String c' s) k = if Re.mem c' cs then None else k s.
Proof. reflexivity. Qed.

Lemma run_cat (r1 r2 : Re.regex) (s : string) (k : string → option string) :
  Re.run (Re.Cat r1 r2) s k = Re.run r1 s (λ s', Re.run r2 s' k).
Proof. reflexivity. Qed.

Lemma run_alt (r1 r2 : Re.regex) (s : string) (k : string → option string) :
  Re.run (Re.Alt r1 r2) s k
  = match Re.run r1 s k with Some rest => Some rest | None => Re.run r2 s k end.
Proof. reflexivity. Qed.

Lemma not_brace_lbrace (c : ascii) :
  not_brace c = true → Ascii.eqb lbrace c = false ∧ Ascii.eqb rbrace c = false.
Proof.
  unfold not_brace, Re.mem. cbn [existsb].
  rewrite orb_false_r, negb_true_iff. intros [H1 H2]%orb_false_iff.
  by rewrite (Ascii.eqb_sym lbrace), (Ascii.eqb_sym rbrace).
Qed.

Lemma not_brace_mem (c : ascii) :
  Re.mem c [lbrace; rbrace] = negb (not_brace c).
Proof. unfold not_brace. by rewrite negb_involutive. Qed.

(** The inner iteration [[^{}]*] runs through a brace-free text and stops at
    the closing brace. *)
Lemma inner_star_runs (inner rest : string) (k : string → option string)
    (x : string) (n : nat) :
  no_brace inner = true →
  (String.length (inner +:+ String rbrace rest) ≤ n)%nat →
  k (String rbrace rest) = Some x →
  Re.star_loop (Re.NoneOf [lbrace; rbrace]) k n (inner +:+ String rbrace rest)
  = Some x.
Proof.
  revert n. induction inner as [|c inner IH]; intros n Hnb Hlen Hk.
  - rewrite string_app_nil_l in *. destruct n as [|n]; [done|].
    cbn [Re.star_loop]. rewrite run_none_of.
    change (Re.mem rbrace [lbrace; rbrace]) with true. by cbn iota.
  - rewrite string_app_cons in *. simpl in Hnb, Hlen.
    apply andb_true_iff in Hnb as [Hc Hnb].
    destruct n as [|n]; [lia|].
    cbn [Re.star_loop]. rewrite run_none_of, not_brace_mem, Hc. cbn [negb].
    replace (Nat.ltb _ _) with true
      by (symmetry; apply Nat.ltb_lt; simpl; lia).
    rewrite IH; [done..| lia |done].
Qed.

(** A text read at depth 2 is a brace-free group, its closing brace and a
    text read at depth 1. *)
Lemma inside_group_split (s : string) :
  inside true s = true →
  ∃ inner s2, s = inner +:+ String rbrace s2
              ∧ no_brace inner = true ∧ inside false s2 = true.
Proof.
  induction s as [|c s IH]; [done|]. cbn [inside].
  destruct (Ascii.eqb c lbrace) eqn:Hl; [done|].
  destruct (Ascii.eqb c rbrace) eqn:Hr.
  - apply Ascii.eqb_eq in Hr as ->. intros H. by exists "", s.
  - intros (inner & s2 & -> & Hnb & Hin)%IH.
    exists (String c inner), s2. split; [done|]. split; [|done].
    unfold no_brace in *. cbn [all_chars]. rewrite Hnb, andb_true_r.
    unfold not_brace, Re.mem. cbn [existsb]. by rewrite Hl, Hr.
Qed.

(** The outer iteration runs through the inside of a one-level object and
    the closing brace ends the match there. *)
Lemma outer_star_runs (n : nat) : ∀ (s rest : string),
  inside false s = true →
  (String.length (s +:+ rest) ≤ n)%nat →
  Re.star_loop item_regex (closing Some) n (s +:+ rest) = Some rest.
Proof.
  induction n as [|n IH]; intros s rest Hin Hlen.
  { destruct s; [done|]. rewrite string_app_cons in Hlen. simpl in Hlen. lia. }
  destruct s as [|c s]; [done|]. rewrite string_app_cons in *.
  cbn [inside] in Hin. simpl in Hlen.
  cbn [Re.star_loop]. unfold item_regex at 1.
  rewrite run_alt, run_none_of, run_cat, run_chr.
  destruct (Ascii.eqb c lbrace) eqn:Hl.
  - apply Ascii.eqb_eq in Hl as ->.
    apply inside_group_split in Hin as (inner & s2 & -> & Hnb & Hin).
    rewrite string_app_assoc, string_app_cons in *.
    change (Re.mem lbrace [lbrace; rbrace]) with true. cbn iota.
    change (Ascii.eqb lbrace lbrace) with true. cbn iota beta.
    rewrite string_length_app in Hlen. simpl in Hlen.
    rewrite run_cat, run_star.
    rewrite (inner_star_runs inner (s2 +:+ rest) _ rest); [done|done|lia|].
    rewrite run_chr. change (Ascii.eqb rbrace rbrace) with true. cbn iota.
    replace (Nat.ltb _ _) with true.
    + apply IH; [done|lia].
    + symmetry. apply Nat.ltb_lt. simpl. rewrite (string_length_app inner).
      simpl. lia.
  - rewrite (Ascii.eqb_sym lbrace c), Hl.
    destruct (Ascii.eqb c rbrace) eqn:Hr.
    + apply Ascii.eqb_eq in Hr as ->. destruct s; [|done].
      rewrite string_app_nil_l. change (Re.mem rbrace [lbrace; rbrace]) with true.
      cbn iota. unfold closing. rewrite run_chr.
      by change (Ascii.eqb rbrace rbrace) with true.
    + replace (Re.mem c [lbrace; rbrace]) with false
        by (unfold Re.mem; cbn [existsb]; by rewrite Hl, Hr).
      replace (Nat.ltb _ _) with true
        by (symmetry; apply Nat.ltb_lt; simpl; lia).
      rewrite IH; [done|done|lia].
Qed.

Lemma substring_prefix (a b : string) :
  String.substring 0 (String.length a) (a +:+ b) = a.
Proof.
  induction a as [|c a IH].
  - rewrite string_app_nil_l. by destruct b.
  - rewrite string_app_cons. simpl. by rewrite IH.
Qed.

(** The pattern matches a one-level object at the start of a text, whatever
    follows it. *)
Lemma match_at_one_level_object (object rest : string) :
  one_level_object object = true →
  Re.match_at pattern (object +:+ rest) = Some object.
Proof.
  destruct object as [|c s]; [done|]. cbn [one_level_object].
  intros [Hc Hin]%andb_true_iff. apply Ascii.eqb_eq in Hc as ->.
  unfold Re.match_at, pattern. rewrite string_app_cons.
  fold item_regex. rewrite run_cat, run_chr.
  change (Ascii.eqb lbrace lbrace) with true. cbn iota.
  rewrite run_cat, run_star. fold (closing Some).
  rewrite (outer_star_runs _ s rest Hin) by done.
  f_equal. rewrite <- string_app_cons.
  replace (_ - _)%nat with (String.length (String lbrace s))
    by (rewrite string_length_app; lia).
  apply substring_prefix.
Qed.

(** No match starts at a character other than the opening brace. *)
Lemma match_at_needs_brace (c : ascii) (s : string) :
  Ascii.eqb lbrace c = false → Re.match_at pattern (String c s) = None.
Proof.
  intros H. unfold Re.match_at, pattern. by rewrite run_cat, run_chr, H.
Qed.

Lemma search_skips_prose (before s : string) :
  no_brace before = true →
  Re.search pattern (before +:+ s) = Re.search pattern s.
Proof.
  induction before as [|c before IH]; [done|]. unfold no_brace in *.
  cbn [all_chars]. intros [Hc Hnb]%andb_true_iff. rewrite string_app_cons.
  apply not_brace_lbrace in Hc as [Hc _].
  cbn [Re.search]. rewrite match_at_needs_brace by done. auto.
Qed.

Lemma search_no_brace (s : string) :
  no_brace s = true → Re.search pattern s = None.
Proof.
  induction s as [|c s IH]; [done|]. unfold no_brace in *.
  cbn [all_chars]. intros [Hc Hnb]%andb_true_iff.
  apply not_brace_lbrace in Hc as [Hc _].
  cbn [Re.search]. rewrite match_at_needs_brace by done. auto.
Qed.

Lemma search_finds_object (before object after : string) :
  no_brace before = true →
  one_level_object object = true →
  Re.search pattern (before +:+ object +:+ after) = Some object.
Proof.
  intros Hb Ho. rewrite search_skips_prose by done.
  destruct (object +:+ after) eqn:E; cbn [Re.search];
    rewrite <- E, match_at_one_level_object; done.
Qed.

(** ** The request and the retry loop *)

Lemma request_conversation_run (w : World) (attempt : Z) (text : string)
    (items : list PaperItem) (fs : files) :
  request_conversation w attempt text items fs
  = (answer w attempt text items, fs,
     [Completion attempt (build_prompt text items)]).
Proof. reflexivity. Qed.

Lemma range_nil (a b : Z) : (b ≤ a)%Z → range a b = [].
Proof. intros H. unfold range. by replace (Z.to_nat (b - a)) with O by lia. Qed.

Lemma range_cons (a b : Z) : (a < b)%Z → range a b = a :: range (a + 1) b.
Proof.
  intros H. unfold range.
  replace (Z.to_nat (b - a)) with (S (Z.to_nat (b - (a + 1)))) by lia.
  cbn [seq map]. f_equal; [lia|].
  rewrite <- seq_shift, map_map. apply map_ext. intros i. lia.
Qed.

Section Retry.

Context (w : World) (text : string) (items : list PaperItem).

Let prompt : string := build_prompt text items.

(** Failing attempts below the bound are each followed by the wait, and
    the loop goes on. *)
Lemma extract_loop_failures (max_retries : Z) (failures : nat) :
  ∀ (attempt stop : Z) (fs : files),
    stop = (attempt + Z.of_nat failures)%Z →
    (stop ≤ max_retries)%Z →
    (∀ a, (attempt ≤ a < stop)%Z → ∃ e, answer w a text items = Raise e) →
    App.extract_loop w text items max_retries (range attempt (max_retries + 1)) fs
    = match App.extract_loop w text items max_retries
              (range stop (max_retries + 1)) fs with
      | (r, fs', events) =>
          (r, fs', retry_events prompt 2 attempt failures ++ events)
      end.
Proof.
  induction failures as [|n IH]; intros attempt stop fs -> Hle Hfail.
  - replace (attempt + Z.of_nat 0)%Z with attempt by lia.
    by destruct (App.extract_loop _ _ _ _ _ _) as [[r fs'] events].
  - rewrite (range_cons attempt) by lia. cbn [App.extract_loop].
    unfold try_except at 1. rewrite request_conversation_run.
    destruct (Hfail attempt) as [e ->]; [lia|].
    replace (attempt <? max_retries)%Z with true
      by (symmetry; apply Z.ltb_lt; lia).
    unfold bind at 1, sleep at 1, emit at 1.
    rewrite (IH (attempt + 1)%Z (attempt + Z.of_nat (S n))%Z); [|lia|lia|].
    + by destruct (App.extract_loop _ _ _ _ _ _) as [[r fs'] events].
    + intros a Ha. apply Hfail. lia.
Qed.

(** The last attempt, when it fails. *)
Lemma extract_loop_last (max_retries : Z) (fs : files) (e : exn) :
  answer w max_retries text items = Raise e →
  App.extract_loop w text items max_retries
    (range max_retries (max_retries + 1)) fs
  = (Raise (exhausted max_retries), fs, [Completion max_retries prompt]).
Proof.
  intros He. rewrite range_cons by lia. cbn [App.extract_loop].
  unfold try_except. rewrite request_conversation_run, He.
  replace (max_retries <? max_retries)%Z with false
    by (symmetry; apply Z.ltb_ge; lia).
  reflexivity.
Qed.

(** An attempt that succeeds. *)
Lemma extract_loop_success (max_retries attempt : Z) (fs : files)
    (parsed : value) :
  (attempt ≤ max_retries)%Z →
  answer w attempt text items = Return parsed →
  App.extract_loop w text items max_retries
    (range attempt (max_retries + 1)) fs
  = (Return parsed, fs, [Completion attempt prompt]).
Proof.
  intros Hle Hok. rewrite range_cons by lia. cbn [App.extract_loop].
  unfold try_except. by rewrite request_conversation_run, Hok.
Qed.

End Retry.

Lemma exhausted_events_step (prompt : string) (delay attempt : Z) (n : nat) :
  exhausted_events prompt delay attempt (S (S n))
  = Completion attempt prompt :: Sleep delay
      :: exhausted_events prompt delay (attempt + 1) (S n).
Proof. reflexivity. Qed.

Lemma exhausted_events_retry (prompt : string) (delay : Z) (n : nat) :
  ∀ attempt,
    exhausted_events prompt delay attempt (S n)
    = retry_events prompt delay attempt n
        ++ [Completion (attempt + Z.of_nat n) prompt].
Proof.
  induction n as [|n IH]; intros attempt.
  - cbn. do 2 f_equal. lia.
  - rewrite exhausted_events_step, IH. cbn [retry_events app].
    by replace (attempt + 1 + Z.of_nat n)%Z
      with (attempt + Z.of_nat (S n))%Z by lia.
Qed.

Lemma exhausted_events_completions (prompt : string) (delay : Z) (n : nat) :
  ∀ attempt,
    List.length (filter is_completion (exhausted_events prompt delay attempt n))
    = n.
Proof.
  induction n as [|n IH]; intros attempt; [done|].
  destruct n as [|n]; [done|]. rewrite exhausted_events_step.
  rewrite filter_cons_True by done. rewrite filter_cons_False by (by intros ?).
  cbn [List.length]. by rewrite IH.
Qed.

Lemma exhausted_events_sleeps (prompt : string) (delay : Z) (n : nat) :
  ∀ attempt,
    filter is_sleep (exhausted_events prompt delay attempt n)
    = replicate (n - 1) (Sleep delay).
Proof.
  induction n as [|n IH]; intros attempt; [done|].
  destruct n as [|n]; [done|]. rewrite exhausted_events_step.
  rewrite filter_cons_False by (by intros ?). rewrite filter_cons_True by done.
  rewrite IH. replace (S (S n) - 1)%nat with (S (S n - 1)) by lia. done.
Qed.

Lemma exhausted_events_last (prompt : string) (delay : Z) (n : nat) (attempt : Z) :
  last (exhausted_events prompt delay attempt (S n))
  = Some (Completion (attempt + Z.of_nat n) prompt).
Proof. rewrite exhausted_events_retry. apply last_snoc. Qed.

(** ** C3 *)

(** C3, as the code has it.  When an attempt finds a match of the pattern in
    the reply and [json.loads] accepts it, after earlier attempts that
    failed, [extract_conversation] returns the parsed object itself: the
    whole dict, not its [conversation] field.  In [cloudflare_app.py], which
    makes one attempt, likewise. *)
Theorem extract_conversation_returns_parsed_object (w : World) (text : string)
    (items : list PaperItem) (max_retries attempt : Z)
    (content json_match : string) (parsed : value) (fs : files) :
  (1 ≤ attempt ≤ max_retries)%Z →
  (∀ a, (1 ≤ a < attempt)%Z → ∃ e, answer w a text items = Raise e) →
  completion w attempt (build_prompt text items) = Some content →
  Re.search pattern content = Some json_match →
  json_loads w json_match = Some parsed →
  App.extract_conversation w text items max_retries fs
  = (Return parsed, fs,
     retry_events (build_prompt text items) 2 1 (Z.to_nat (attempt - 1))
       ++ [Completion attempt (build_prompt text items)])
  ∧ (attempt = 1%Z →
     Cloudflare.extract_conversation w text items fs
     = (Return parsed, fs, [Completion 1 (build_prompt text items)])).
Proof.
  intros Hk Hfail Hc Hm Hp.
  assert (answer w attempt text items = Return parsed) as Hok.
  { unfold answer, extract_json. by rewrite Hc, Hm, Hp. }
  split.
  - unfold App.extract_conversation.
    rewrite (extract_loop_failures w text items max_retries
               (Z.to_nat (attempt - 1)) 1 attempt); [|lia|lia|].
    + by rewrite (extract_loop_success w text items max_retries attempt fs parsed)
        by (done || lia).
    + intros a Ha. apply Hfail. lia.
  - intros ->. unfold Cloudflare.extract_conversation.
    by rewrite request_conversation_run, Hok.
Qed.

Lemma extract_conversation_returns_parsed_object_witness :
  App.extract_conversation Demo.answered "" Demo.papers 3 ∅
  = (Return Demo.parsed_reply, ∅,
     retry_events (build_prompt "" Demo.papers) 2 1 (Z.to_nat (1 - 1))
       ++ [Completion 1 (build_prompt "" Demo.papers)])
  ∧ (1%Z = 1%Z →
     Cloudflare.extract_conversation Demo.answered "" Demo.papers ∅
     = (Return Demo.parsed_reply, ∅,
        [Completion 1 (build_prompt "" Demo.papers)])).
Proof.
  apply (extract_conversation_returns_parsed_object Demo.answered ""
           Demo.papers 3 1 (Demo.reply Demo.two_lines)
           (Demo.script Demo.two_lines) Demo.parsed_reply ∅).
  - lia.
  - intros a Ha. lia.
  - reflexivity.
  - vm_compute. reflexivity.
  - vm_compute. reflexivity.
Defined.

(** C3, as stated, fails: on the reply with the two lines both scripts
    return the dict with the key [conversation], which is not the list of
    lines found under that key. *)
Lemma extract_conversation_not_the_field :
  subscript Demo.parsed_reply "conversation" = Return Demo.dialogue
  ∧ (App.extract_conversation Demo.answered "" Demo.papers 3 ∅).1.1
    = Return Demo.parsed_reply
  ∧ (Cloudflare.extract_conversation Demo.answered "" Demo.papers ∅).1.1
    = Return Demo.parsed_reply
  ∧ (App.extract_conversation Demo.answered "" Demo.papers 3 ∅).1.1
    ≠ Return Demo.dialogue.
Proof.
  assert ((App.extract_conversation Demo.answered "" Demo.papers 3 ∅).1.1
          = Return Demo.parsed_reply) as H by (vm_compute; reflexivity).
  split; [reflexivity|]. split; [exact H|].
  split; [vm_compute; reflexivity|]. rewrite H. discriminate.
Qed.

(** ** C4 *)

(** C4, as the code has it.  When the reply is brace-free prose, then one
    object whose braces nest at most one level deep, then anything, the
    search finds exactly that object and the extraction is the result of
    parsing it directly. *)
Theorem extraction_of_one_level_object (w : World)
    (before object after : string) (parsed : value) :
  no_brace before = true →
  one_level_object object = true →
  json_loads w object = Some parsed →
  Re.search pattern (before +:+ object +:+ after) = Some object
  ∧ extract_json w (before +:+ object +:+ after) = Return parsed.
Proof.
  intros Hb Ho Hp. pose proof (search_finds_object before object after Hb Ho) as Hs.
  split; [done|]. unfold extract_json. by rewrite Hs, Hp.
Qed.

Lemma extraction_of_one_level_object_witness :
  Re.search pattern
    ("Sure! Here is the script: " +:+ Demo.script Demo.two_lines
       +:+ " Enjoy the show.")
  = Some (Demo.script Demo.two_lines)
  ∧ extract_json Demo.answered
      ("Sure! Here is the script: " +:+ Demo.script Demo.two_lines
         +:+ " Enjoy the show.")
    = Return Demo.parsed_reply.
Proof.
  apply (extraction_of_one_level_object Demo.answered
           "Sure! Here is the script: " (Demo.script Demo.two_lines)
           " Enjoy the show." Demo.parsed_reply).
  - reflexivity.
  - vm_compute. reflexivity.
  - vm_compute. reflexivity.
Defined.

(** C4, as stated, fails: a reply that is one balanced object, with a line
    that carries an object of its own, is parsed directly into the dict with
    the key [conversation], but the search skips the outer brace and the
    extraction yields the line. *)
Lemma extraction_truncates_nested_object :
  Json.loads Demo.nested_reply = Some Demo.nested_parsed
  ∧ Re.search pattern Demo.nested_reply = Some Demo.nested_line
  ∧ extract_json Demo.answered Demo.nested_reply = Return Demo.nested_line_parsed
  ∧ Demo.nested_line_parsed ≠ Demo.nested_parsed.
Proof.
  split; [vm_compute; reflexivity|]. split; [vm_compute; reflexivity|].
  split; [vm_compute; reflexivity|]. discriminate.
Qed.

(** ** C5 *)

(** A reply without a brace has no match: the attempt fails. *)
Lemma answer_without_brace (w : World) (attempt : Z) (text : string)
    (items : list PaperItem) (content : string) :
  completion w attempt (build_prompt text items) = Some content →
  no_brace content = true →
  answer w attempt text items
  = Raise (ValueError "No valid JSON found in response").
Proof.
  intros Hc Hnb. unfold answer, extract_json.
  by rewrite Hc, search_no_brace.
Qed.

(** C5, as the code has it.  In [app.py], for a bound of at least one and a
    world in which every attempt fails, [extract_conversation] makes exactly
    [max_retries] requests, waits 2 seconds between consecutive requests and
    not after the last, and raises [RuntimeError]; the bound is a parameter
    with default 3, the wait is the constant 2.  In [cloudflare_app.py] there
    is one request and its own exception reaches the caller. *)
Theorem extract_conversation_gives_up (w : World) (text : string)
    (items : list PaperItem) (max_retries : Z) (fs : files) :
  (1 ≤ max_retries)%Z →
  (∀ attempt, (1 ≤ attempt ≤ max_retries)%Z →
     ∃ e, answer w attempt text items = Raise e) →
  let prompt := build_prompt text items in
  let events := exhausted_events prompt 2 1 (Z.to_nat max_retries) in
  App.extract_conversation w text items max_retries fs
  = (Raise (exhausted max_retries), fs, events)
  ∧ List.length (filter is_completion events) = Z.to_nat max_retries
  ∧ filter is_sleep events = replicate (Z.to_nat max_retries - 1) (Sleep 2)
  ∧ last events = Some (Completion max_retries prompt)
  ∧ App.default_max_retries = 3%Z
  ∧ ∃ e, Cloudflare.extract_conversation w text items fs
         = (Raise e, fs, [Completion 1 prompt]).
Proof.
  intros Hmax Hfail prompt events.
  destruct (Z.to_nat max_retries) as [|n] eqn:Hn; [lia|].
  assert (max_retries = 1 + Z.of_nat n)%Z as Hmax' by lia.
  split; [|split; [|split; [|split]]].
  - unfold App.extract_conversation.
    rewrite (extract_loop_failures w text items max_retries n 1 max_retries);
      [|lia|lia|].
    + destruct (Hfail max_retries) as [e He]; [lia|].
      rewrite (extract_loop_last w text items max_retries fs e He).
      subst events. rewrite exhausted_events_retry. by rewrite <- Hmax'.
    + intros a Ha. apply Hfail. lia.
  - apply exhausted_events_completions.
  - apply exhausted_events_sleeps.
  - subst events. rewrite exhausted_events_last. by rewrite <- Hmax'.
  - split; [reflexivity|]. destruct (Hfail 1%Z) as [e He]; [lia|].
    exists e. unfold Cloudflare.extract_conversation.
    by rewrite request_conversation_run, He.
Qed.

Lemma extract_conversation_gives_up_witness :
  let prompt := build_prompt "" Demo.papers in
  let events := exhausted_events prompt 2 1 (Z.to_nat 3) in
  App.extract_conversation Demo.unanswered "" Demo.papers 3 ∅
  = (Raise (exhausted 3), ∅, events)
  ∧ List.length (filter is_completion events) = Z.to_nat 3
  ∧ filter is_sleep events = replicate (Z.to_nat 3 - 1) (Sleep 2)
  ∧ last events = Some (Completion 3 prompt)
  ∧ App.default_max_retries = 3%Z
  ∧ ∃ e, Cloudflare.extract_conversation Demo.unanswered "" Demo.papers ∅
         = (Raise e, ∅, [Completion 1 prompt]).
Proof.
  apply (extract_conversation_gives_up Demo.unanswered "" Demo.papers 3 ∅).
  - lia.
  - intros attempt _. eexists. vm_compute. reflexivity.
Defined.

(** C5, as stated, fails.  With a bound of 0 [extract_conversation] makes no
    request and returns [None] where the contract raises; with a wait of 5
    seconds asked for, the wait is still 2 seconds, for the function has no
    such parameter; and [cloudflare_app.py] stops at the first failure with
    the exception of that failure. *)
Lemma retry_contract_counterexample :
  let prompt := build_prompt "" Demo.papers in
  let run (max_retries : Z) :=
    match App.extract_conversation Demo.unanswered "" Demo.papers max_retries ∅
    with (r, _, events) => (r, events) end in
  run 0%Z = (Return JNull, [])
  ∧ run 0%Z ≠ Spec.generate_conversation_exhausted prompt 0 2
  ∧ run 2%Z
    = (Raise (exhausted 2), [Completion 1 prompt; Sleep 2; Completion 2 prompt])
  ∧ run 2%Z ≠ Spec.generate_conversation_exhausted prompt 2 5
  ∧ Cloudflare.extract_conversation Demo.unanswered "" Demo.papers ∅
    = (Raise (ValueError "No valid JSON found in response"), ∅,
       [Completion 1 prompt]).
Proof.
  cbv zeta.
  split; [vm_compute; reflexivity|].
  split; [vm_compute; discriminate|].
  split; [vm_compute; reflexivity|].
  split; [vm_compute; discriminate|].
  vm_compute; reflexivity.
Qed.

(** ** C10 *)

Lemma select_voice_brian (speaker : value) :
  select_voice speaker = "en-GB-RyanNeural" ↔ speaker = JStr "Brian".
Proof.
  unfold select_voice, eq_str. split.
  - destruct speaker as [| | | |s| |]; try discriminate.
    destruct (String.eqb_spec s "Brian") as [->|]; [done|discriminate].
  - by intros ->.
Qed.

Lemma select_voice_other (speaker : value) :
  speaker ≠ JStr "Brian" → select_voice speaker = "en-US-AvaMultilingualNeural".
Proof.
  intros Hne. unfold select_voice, eq_str.
  destruct speaker as [| | | |s| |]; try done.
  destruct (String.eqb_spec s "Brian") as [->|]; [done|done].
Qed.

Lemma line_tasks_spoken (lines : list value) (spoken : list (value * value)) :
  Forall2 has_fields lines spoken →
  ∀ first,
    line_tasks first lines
    = Return (imap (λ i, spoken_task (first + i)) spoken).
Proof.
  induction 1 as [|item line lines spoken [Hs Ht] _ IH]; intros first;
    [done|].
  cbn [line_tasks]. unfold line_task. rewrite Ht, Hs, IH. cbn [imap].
  f_equal. f_equal.
  - unfold spoken_task. by rewrite Nat.add_0_r.
  - apply imap_ext. intros i x _. cbn. f_equal. lia.
Qed.

Lemma imap_spoken_outputs (spoken : list (value * value)) (first : nat) :
  map task_output (imap (λ i, spoken_task (first + i)) spoken)
  = map output_name (seq first (List.length spoken)).
Proof.
  revert first. induction spoken as [|line spoken IH]; intros first; [done|].
  cbn [imap map List.length seq]. rewrite Nat.add_0_r. f_equal.
  rewrite <- IH. f_equal. apply imap_ext. intros i x _. cbn. f_equal. lia.
Qed.

Lemma abandon_returns (w : World) (tasks : list task) :
  ∀ i fs, ∃ fs' events, abandon w i tasks fs = (Return tt, fs', events).
Proof.
  induction tasks as [|t tasks IH]; intros i fs; [by exists fs, []|].
  cbn [abandon]. unfold bind.
  destruct (leftover w i) as [partial|].
  - unfold save_to_file.
    destruct (IH (S i) (<[task_output t:=partial]> fs)) as (fs' & events & ->).
    eauto.
  - unfold ret. destruct (IH (S i) fs) as (fs' & events & ->). eauto.
Qed.

Lemma gather_outcome (w : World) (tasks : list task) (fs : files) :
  ∃ fs' events,
    gather w tasks fs
    = (match synthesize_all w tasks with
       | Some _ => Return tt
       | None => Raise NoAudioReceived
       end, fs', events).
Proof.
  unfold gather. destruct (synthesize_all w tasks) as [clips|].
  - revert clips fs. induction tasks as [|t tasks IH]; intros clips fs.
    + by exists fs, [].
    + destruct clips as [|clip clips]; [by exists fs, []|].
      cbn [save_clips]. unfold bind, save_to_file.
      destruct (IH clips (<[task_output t:=clip]> fs)) as (fs' & events & ->).
      eauto.
  - unfold bind. destruct (abandon_returns w tasks 0 fs) as (fs' & events & ->).
    unfold raise. eauto.
Qed.

Lemma generate_audio_parallel_run (w : World) (conversation dialogue : value)
    (lines : list value) (tasks : list task) (fs : files) :
  subscript conversation "conversation" = Return dialogue →
  iterate dialogue = Return lines →
  line_tasks 0 lines = Return tasks →
  generate_audio_parallel w conversation fs
  = match gather w tasks fs with
    | (Return _, fs', events) => (Return (map task_output tasks), fs', events)
    | (Raise e, fs', events) => (Raise e, fs', events)
    end.
Proof.
  intros H1 H2 H3. unfold generate_audio_parallel, bind, lift.
  rewrite H1, H2, H3.
  destruct (gather w tasks fs) as [[[[]|e] fs'] events]; cbn;
    by rewrite ?app_nil_r.
Qed.

(** C10.  The choice of the voice is a total function of the speaker, equal
    to en-GB-RyanNeural exactly when the speaker is the string "Brian" and to
    en-US-AvaMultilingualNeural for every other value.  For lines that have a
    speaker and a text the loop builds one task per line, in order, the task
    of line [i] with the voice of its speaker and the output audio_i.mp3;
    the list returned is these outputs, one per line, or the batch fails in
    the speech service. *)
Theorem voice_selection_and_alignment (w : World) (lines : list value)
    (spoken : list (value * value)) (conversation : value) (fs : files) :
  Forall2 has_fields lines spoken →
  subscript conversation "conversation" = Return (JArr lines) →
  (∀ speaker, select_voice speaker = "en-GB-RyanNeural" ↔ speaker = JStr "Brian")
  ∧ (∀ speaker, speaker ≠ JStr "Brian" →
       select_voice speaker = "en-US-AvaMultilingualNeural")
  ∧ line_tasks 0 lines = Return (imap spoken_task spoken)
  ∧ (∀ i line, spoken !! i = Some line →
       imap spoken_task spoken !! i
       = Some {| task_text := snd line;
                 task_voice := select_voice (fst line);
                 task_output := "audio_" +:+ pretty i +:+ ".mp3" |})
  ∧ ∃ fs' events,
      generate_audio_parallel w conversation fs
      = (match synthesize_all w (imap spoken_task spoken) with
         | Some _ => Return (map output_name (seq 0 (List.length lines)))
         | None => Raise NoAudioReceived
         end, fs', events).
Proof.
  intros Hlines Hconv.
  pose proof (line_tasks_spoken lines spoken Hlines 0) as Htasks.
  cbn [Nat.add] in Htasks.
  split; [apply select_voice_brian|]. split; [apply select_voice_other|].
  split; [exact Htasks|]. split.
  - intros i line Hi. rewrite list_lookup_imap, Hi. reflexivity.
  - rewrite (generate_audio_parallel_run w conversation (JArr lines) lines
               (imap spoken_task spoken) fs Hconv eq_refl Htasks).
    destruct (gather_outcome w (imap spoken_task spoken) fs)
      as (fs' & events & ->).
    destruct (synthesize_all w (imap spoken_task spoken)); [|by eauto].
    exists fs', events. do 3 f_equal.
    rewrite (Forall2_length _ _ _ Hlines). exact (imap_spoken_outputs spoken 0).
Qed.

Lemma voice_selection_and_alignment_witness :
  (∀ speaker, select_voice speaker = "en-GB-RyanNeural" ↔ speaker = JStr "Brian")
  ∧ (∀ speaker, speaker ≠ JStr "Brian" →
       select_voice speaker = "en-US-AvaMultilingualNeural")
  ∧ line_tasks 0 [Demo.spoken "Brian" "Welcome back.";
                  Demo.spoken "Jenny" "Two papers today."]
    = Return (imap spoken_task [(JStr "Brian", JStr "Welcome back.");
                                (JStr "Jenny", JStr "Two papers today.")])
  ∧ (∀ i line,
       [(JStr "Brian", JStr "Welcome back.");
        (JStr "Jenny", JStr "Two papers today.")] !! i = Some line →
       imap spoken_task [(JStr "Brian", JStr "Welcome back.");
                         (JStr "Jenny", JStr "Two papers today.")] !! i
       = Some {| task_text := snd line;
                 task_voice := select_voice (fst line);
                 task_output := "audio_" +:+ pretty i +:+ ".mp3" |})
  ∧ ∃ fs' events,
      generate_audio_parallel Demo.answered Demo.parsed_reply ∅
      = (match synthesize_all Demo.answered
                 (imap spoken_task [(JStr "Brian", JStr "Welcome back.");
                                    (JStr "Jenny", JStr "Two papers today.")])
         with
         | Some _ =>
             Return (map output_name
                       (seq 0 (List.length
                                 [Demo.spoken "Brian" "Welcome back.";
                                  Demo.spoken "Jenny" "Two papers today."])))
         | None => Raise NoAudioReceived
         end, fs', events).
Proof.
  apply (voice_selection_and_alignment Demo.answered
           [Demo.spoken "Brian" "Welcome back.";
            Demo.spoken "Jenny" "Two papers today."]
           [(JStr "Brian", JStr "Welcome back.");
            (JStr "Jenny", JStr "Two papers today.")]
           Demo.parsed_reply ∅).
  - repeat constructor.
  - reflexivity.
Defined.

(** ** C7 *)

Lemma merge_loop_track (w : World) (fs : files) (audio_files : list string)
    (clips : list AudioSegment) :
  Forall2 (readable w fs) audio_files clips →
  ∀ combined,
    merge_loop w combined audio_files fs
    = (Return {| raw_data := raw_data combined +:+ track clips |}, fs, []).
Proof.
  induction 1 as [|file clip audio_files clips (content & Hf & Hd) _ IH];
    intros combined.
  - cbn. rewrite string_app_nil_r. by destruct combined.
  - cbn [merge_loop]. unfold bind at 1, from_file, bind, read_file.
    rewrite Hf, Hd. unfold ret. rewrite IH. cbn [app track]. do 3 f_equal.
    unfold seg_add. cbn [raw_data]. by rewrite string_app_assoc.
Qed.

(** C7.  When every clip is there and decodes, the merged track is the
    frames of the clips in the order of the list, nothing added between
    them, and it is this track that is exported; for a single clip the track
    is that clip, and for three clips it is the first, then the second, then
    the third. *)
Theorem merge_concatenates_in_order (w : World) (fs : files)
    (audio_files : list string) (clips : list AudioSegment)
    (output_file : string) :
  Forall2 (readable w fs) audio_files clips →
  merge_loop w seg_empty audio_files fs
  = (Return {| raw_data := track clips |}, fs, [])
  ∧ merge_audio_files w audio_files output_file fs
    = export w {| raw_data := track clips |} output_file fs
  ∧ (∀ mp3, encode w {| raw_data := track clips |} = Some mp3 →
       merge_audio_files w audio_files output_file fs
       = (Return tt, <[output_file := mp3]> fs, [WriteFile output_file mp3]))
  ∧ (∀ a, clips = [a] → {| raw_data := track clips |} = a)
  ∧ (∀ a b c, clips = [a; b; c] →
       track clips = raw_data a +:+ raw_data b +:+ raw_data c).
Proof.
  intros Hclips.
  pose proof (merge_loop_track w fs audio_files clips Hclips seg_empty) as Hm.
  cbn [seg_empty raw_data] in Hm. rewrite string_app_nil_l in Hm.
  assert (merge_audio_files w audio_files output_file fs
          = export w {| raw_data := track clips |} output_file fs) as He.
  { unfold merge_audio_files, bind. rewrite Hm.
    by destruct (export _ _ _ _) as [[r fs'] events]. }
  split; [exact Hm|]. split; [exact He|]. split; [|split].
  - intros mp3 Hmp3. rewrite He. unfold export. by rewrite Hmp3.
  - intros [a] ->. cbn. by rewrite string_app_nil_r.
  - intros a b c ->. cbn. by rewrite string_app_nil_r.
Qed.

Lemma merge_concatenates_in_order_witness :
  let fs : files := {[ "audio_0.mp3" := "<one>"; "audio_1.mp3" := "<two>";
                       "audio_2.mp3" := "<three>" ]} in
  let audio_files := ["audio_0.mp3"; "audio_1.mp3"; "audio_2.mp3"] in
  let clips := [ {| raw_data := "<one>" |}; {| raw_data := "<two>" |};
                 {| raw_data := "<three>" |} ] in
  merge_loop Demo.answered seg_empty audio_files fs
  = (Return {| raw_data := track clips |}, fs, [])
  ∧ merge_audio_files Demo.answered audio_files "merged_audio.mp3" fs
    = export Demo.answered {| raw_data := track clips |} "merged_audio.mp3" fs
  ∧ (∀ mp3, encode Demo.answered {| raw_data := track clips |} = Some mp3 →
       merge_audio_files Demo.answered audio_files "merged_audio.mp3" fs
       = (Return tt, <["merged_audio.mp3" := mp3]> fs,
          [WriteFile "merged_audio.mp3" mp3]))
  ∧ (∀ a, clips = [a] → {| raw_data := track clips |} = a)
  ∧ (∀ a b c, clips = [a; b; c] →
       track clips = raw_data a +:+ raw_data b +:+ raw_data c).
Proof.
  cbv zeta.
  apply (merge_concatenates_in_order Demo.answered
           {[ "audio_0.mp3" := "<one>"; "audio_1.mp3" := "<two>";
              "audio_2.mp3" := "<three>" ]}
           ["audio_0.mp3"; "audio_1.mp3"; "audio_2.mp3"]
           [ {| raw_data := "<one>" |}; {| raw_data := "<two>" |};
             {| raw_data := "<three>" |} ]
           "merged_audio.mp3").
  repeat constructor; eexists; (split; [vm_compute; reflexivity | reflexivity]).
Defined.

(** ** Effects and the file system *)

Lemma replay_app (l1 l2 : list event) (fs : files) :
  replay (l1 ++ l2) fs = replay l2 (replay l1 fs).
Proof. apply fold_left_app. Qed.

Lemma replay_untouched (path : string) (events : list event) :
  ∀ fs, Forall (λ e, target e ≠ Some path) events →
        replay events fs !! path = fs !! path.
Proof.
  induction events as [|e events IH]; intros fs Hall; [done|].
  apply Forall_cons in Hall as [He Hall]. cbn [replay fold_left].
  fold (replay events (replay_event fs e)). rewrite IH by done.
  destruct e as [| |p c|p|]; cbn in *; try done.
  - apply lookup_insert_ne. congruence.
  - apply lookup_delete_ne. congruence.
Qed.

Lemma replay_written (path content : string) (before after : list event)
    (fs : files) :
  Forall (λ e, target e ≠ Some path) after →
  replay (before ++ WriteFile path content :: after) fs !! path = Some content.
Proof.
  intros Hall. rewrite replay_app. cbn [replay fold_left].
  fold (replay after (replay_event (replay before fs) (WriteFile path content))).
  rewrite replay_untouched by done. apply lookup_insert_eq.
Qed.

Section Within.

Context {A B : Type} (P : event → Prop).

Lemma within_ret (a : A) : within P (ret a).
Proof. intros fs r fs' events [= <- <- <-]. by split. Qed.

Lemma within_raise (e : exn) : within P (raise (A := A) e).
Proof. intros fs r fs' events [= <- <- <-]. by split. Qed.

Lemma within_lift (r : outcome A) : within P (lift r).
Proof. intros fs r' fs' events [= <- <- <-]. by split. Qed.

Lemma within_bind (m : M A) (k : A → M B) :
  within P m → (∀ a, within P (k a)) → within P (bind m k).
Proof.
  intros Hm Hk fs r fs' events. unfold bind.
  destruct (m fs) as [[[a|e] fs1] l1] eqn:E1;
    destruct (Hm _ _ _ _ E1) as [H1 ->].
  - destruct (k a (replay l1 fs)) as [[r2 fs2] l2] eqn:E2.
    destruct (Hk _ _ _ _ _ E2) as [H2 ->]. intros [= <- <- <-].
    split; [by apply Forall_app|]. by rewrite replay_app.
  - by intros [= <- <- <-].
Qed.

Lemma within_try_except (m : M A) (h : exn → M A) :
  within P m → (∀ e, within P (h e)) → within P (try_except m h).
Proof.
  intros Hm Hh fs r fs' events. unfold try_except.
  destruct (m fs) as [[[a|e] fs1] l1] eqn:E1;
    destruct (Hm _ _ _ _ E1) as [H1 ->].
  - by intros [= <- <- <-].
  - destruct (h e (replay l1 fs)) as [[r2 fs2] l2] eqn:E2.
    destruct (Hh _ _ _ _ _ E2) as [H2 ->]. intros [= <- <- <-].
    split; [by apply Forall_app|]. by rewrite replay_app.
Qed.


End Within.

Lemma within_emit (P : event → Prop) (e : event) :
  P e → target e = None → within P (emit e).
Proof.
  intros HP Ht fs r fs' events [= <- <- <-]. split; [by constructor|].
  by destruct e.
Qed.

Lemma within_save_to_file (P : event → Prop) (content filename : string) :
  P (WriteFile filename content) → within P (save_to_file content filename).
Proof. intros HP fs r fs' events [= <- <- <-]. split; [by constructor|done]. Qed.

Lemma within_os_remove (P : event → Prop) (path : string) :
  P (RemoveFile path) → within P (os_remove path).
Proof.
  intros HP fs r fs' events. unfold os_remove.
  destruct (fs !! path); intros [= <- <- <-]; split; try done. by constructor.
Qed.

Lemma within_read_file (P : event → Prop) (path : string) :
  within P (read_file path).
Proof.
  intros fs r fs' events. unfold read_file.
  by destruct (fs !! path); intros [= <- <- <-].
Qed.


(** ** The stages of the generation *)

Lemma within_request_conversation (w : World) (attempt : Z) (text : string)
    (items : list PaperItem) :
  within is_request (request_conversation w attempt text items).
Proof.
  apply within_bind; [by apply within_emit | intros _; apply within_lift].
Qed.

Lemma within_extract_loop (w : World) (text : string) (items : list PaperItem)
    (max_retries : Z) (attempts : list Z) :
  within is_request (App.extract_loop w text items max_retries attempts).
Proof.
  induction attempts as [|attempt rest IH]; [apply within_ret|].
  cbn [App.extract_loop]. apply within_try_except.
  - apply within_request_conversation.
  - intros _. destruct (attempt <? max_retries)%Z; [|apply within_raise].
    apply within_bind; [by apply within_emit | done].
Qed.

Lemma within_app_extract_conversation (w : World) (text : string)
    (items : list PaperItem) (max_retries : Z) :
  within is_request (App.extract_conversation w text items max_retries).
Proof. apply within_extract_loop. Qed.

Lemma within_cloudflare_extract_conversation (w : World) (text : string)
    (items : list PaperItem) :
  within is_request (Cloudflare.extract_conversation w text items).
Proof. apply within_request_conversation. Qed.

(** The outputs of the tasks are the names of the clips, in order. *)
Lemma line_tasks_outputs (lines : list value) :
  ∀ first tasks,
    line_tasks first lines = Return tasks →
    map task_output tasks = map output_name (seq first (List.length lines)).
Proof.
  induction lines as [|item lines IH]; intros first tasks.
  - by intros [= <-].
  - cbn [line_tasks]. unfold line_task.
    destruct (subscript item "text") as [text|]; [|done].
    destruct (subscript item "speaker") as [speaker|]; [|done].
    destruct (line_tasks (S first) lines) as [ts|] eqn:E; [|done].
    intros [= <-]. cbn. f_equal. by apply IH.
Qed.

Lemma clip_outputs_of_names (tasks : list task) (names : list nat) :
  map task_output tasks = map output_name names → clip_outputs tasks.
Proof.
  revert names. induction tasks as [|t tasks IH]; intros names H;
    [by constructor|].
  destruct names as [|i names]; [done|]. injection H as H1 H2.
  constructor; [by exists i | by apply (IH names)].
Qed.

Lemma within_save_clips (tasks : list task) :
  clip_outputs tasks →
  ∀ clips, within is_clip_write (save_clips tasks clips).
Proof.
  induction 1 as [|t tasks [i Hi] _ IH]; intros clips; [apply within_ret|].
  destruct clips as [|clip clips]; [apply within_ret|].
  cbn [save_clips]. apply within_bind; [|done].
  apply within_save_to_file. cbn. eauto.
Qed.

Lemma within_abandon (w : World) (tasks : list task) :
  clip_outputs tasks → ∀ i, within is_clip_write (abandon w i tasks).
Proof.
  induction 1 as [|t tasks [j Hj] _ IH]; intros i; [apply within_ret|].
  cbn [abandon]. apply within_bind; [|done].
  destruct (leftover w i); [|apply within_ret].
  apply within_save_to_file. cbn. eauto.
Qed.

Lemma within_gather (w : World) (tasks : list task) :
  clip_outputs tasks → within is_clip_write (gather w tasks).
Proof.
  intros H. unfold gather. destruct (synthesize_all w tasks).
  - by apply within_save_clips.
  - apply within_bind; [by apply within_abandon|intros _; apply within_raise].
Qed.

(** The speech stage writes clips only, and what it returns are the names of
    the clips. *)
Lemma generate_audio_parallel_effects (w : World) (conversation : value)
    (fs : files) (r : outcome (list string)) (fs' : files)
    (events : list event) :
  generate_audio_parallel w conversation fs = (r, fs', events) →
  Forall is_clip_write events ∧ fs' = replay events fs
  ∧ ∀ audio_files, r = Return audio_files →
      ∃ n, audio_files = map output_name (seq 0 n).
Proof.
  unfold generate_audio_parallel, bind, lift. intros E.
  destruct (subscript conversation "conversation") as [dialogue|e] eqn:E1;
    cbv beta iota zeta in E; [|by injection E as <- <- <-].
  destruct (iterate dialogue) as [lines|e] eqn:E2;
    cbv beta iota zeta in E; [|by injection E as <- <- <-].
  destruct (line_tasks 0 lines) as [tasks|e] eqn:E3;
    cbv beta iota zeta in E; [|by injection E as <- <- <-].
  pose proof (line_tasks_outputs _ _ _ E3) as Hout.
  assert (within is_clip_write (gather w tasks)) as Hg
    by (eapply within_gather, clip_outputs_of_names; eauto).
  destruct (gather w tasks fs) as [[[[]|e] fs1] l1] eqn:E4;
    destruct (Hg _ _ _ _ E4) as [H1 ->]; cbn in E;
    injection E as <- <- <-; rewrite ?app_nil_r.
  - split; [done|]. split; [done|]. intros ? [= <-]. eauto.
  - split; [done|]. split; [done|]. done.
Qed.

Lemma within_merge_loop (w : World) (audio_files : list string) :
  ∀ combined, within (λ _, False) (merge_loop w combined audio_files).
Proof.
  induction audio_files as [|file rest IH]; intros combined;
    [apply within_ret|].
  cbn [merge_loop]. apply within_bind; [|done].
  apply within_bind; [apply within_read_file|].
  intros content. destruct (decode w content);
    [apply within_ret|apply within_raise].
Qed.

(** The merge writes the episode and nothing else; when it returns, it has
    written the encoding of the track. *)
Lemma merge_audio_files_effects (w : World) (audio_files : list string)
    (output_file : string) (fs : files) (r : outcome unit) (fs' : files)
    (events : list event) :
  merge_audio_files w audio_files output_file fs = (r, fs', events) →
  fs' = replay events fs
  ∧ ((∃ mp3, r = Return tt ∧ events = [WriteFile output_file mp3])
     ∨ (∃ e, r = Raise e
             ∧ Forall (λ ev, ∃ c, ev = WriteFile output_file c) events)).
Proof.
  unfold merge_audio_files, bind.
  destruct (merge_loop w seg_empty audio_files fs) as [[[combined|e] fs1] l1]
    eqn:E1;
    destruct (within_merge_loop w audio_files seg_empty _ _ _ _ E1) as [H1 ->].
  2:{ intros [= <- <- <-]. split; [done|]. right. exists e. split; [done|].
      eapply Forall_impl; [exact H1|done]. }
  destruct l1 as [|x l1]; [|by apply Forall_cons in H1 as [[] _]].
  cbn [replay fold_left app]. unfold export.
  destruct (encode w combined) as [mp3|].
  - unfold save_to_file. intros [= <- <- <-]. split; [done|]. left. eauto.
  - unfold bind, raise. destruct (failed_export w) as [partial|].
    + unfold save_to_file. intros [= <- <- <-]. split; [done|]. right.
      eexists. split; [done|]. repeat constructor. eauto.
    + unfold ret. intros [= <- <- <-]. split; [done|]. right.
      eexists. split; [done|]. constructor.
Qed.

Lemma within_remove_clips (n : nat) : ∀ first,
  within is_clip_remove (for_each os_remove (map output_name (seq first n))).
Proof.
  induction n as [|n IH]; intros first; [apply within_ret|].
  cbn [seq map for_each]. apply within_bind; [|done].
  apply within_os_remove. cbn. eauto.
Qed.

(** ** The date of the marker *)

Lemma digit_is_digit (n : nat) : is_digit (digit n) = true.
Proof.
  unfold digit.
  destruct (n mod 10) as [|[|[|[|[|[|[|[|[|k]]]]]]]]]; reflexivity.
Qed.

Ltac digit_cases H :=
  unfold is_digit, Re.mem in H; cbn [existsb] in H;
  repeat (apply orb_true_iff in H as [H|H];
          [apply Ascii.eqb_eq in H; subst|]);
  [..|discriminate H].

(** A text that begins and ends with a digit, eight characters between, is
    its own [strip]. *)
Lemma strip_digits (first last c2 c3 c4 c5 c6 c7 c8 c9 : ascii) :
  is_digit first = true → is_digit last = true →
  let s := String first (String c2 (String c3 (String c4 (String c5
             (String c6 (String c7 (String c8 (String c9
               (String last EmptyString))))))))) in
  strip s = s.
Proof.
  intros Hf Hl. cbv zeta. digit_cases Hf; digit_cases Hl; reflexivity.
Qed.

Lemma strip_strftime (d : date) : strip (strftime_Ymd d) = strftime_Ymd d.
Proof. apply strip_digits; apply digit_is_digit. Qed.

(** ** The gate *)

Lemma already_generated_today_run (w : World) (marker : string) (fs : files) :
  already_generated_today w marker fs = (Return (fresh w marker fs), fs, []).
Proof.
  unfold already_generated_today, bind, path_exists, read_file, fresh.
  destruct (fs !! marker) as [content|] eqn:E.
  - rewrite bool_decide_eq_true_2 by eauto. cbv beta iota zeta.
    by rewrite E.
  - by rewrite bool_decide_eq_false_2 by (by intros [? ?]).
Qed.

Lemma daily_cycle_fresh (w : World) (p : Paths) (extract : M value)
    (publish : M unit) (fs : files) :
  fresh w (last_run_file p) fs = true →
  daily_cycle w p extract publish fs = (Return tt, fs, []).
Proof.
  intros H. unfold daily_cycle, bind.
  by rewrite already_generated_today_run, H.
Qed.

Lemma daily_cycle_stale (w : World) (p : Paths) (extract : M value)
    (publish : M unit) (fs : files) :
  fresh w (last_run_file p) fs = false →
  daily_cycle w p extract publish fs = generation w p extract publish fs.
Proof.
  intros H. unfold daily_cycle, bind.
  rewrite already_generated_today_run, H.
  by destruct (generation w p extract publish fs) as [[r fs'] events].
Qed.

(** ** The generation, stage by stage *)

Lemma bind_inv {A B} (m : M A) (k : A → M B) (fs : files) (r : outcome B)
    (fs' : files) (events : list event) :
  bind m k fs = (r, fs', events) →
  (∃ e, m fs = (Raise e, fs', events) ∧ r = Raise e)
  ∨ (∃ a fs1 l1 l2, m fs = (Return a, fs1, l1) ∧ k a fs1 = (r, fs', l2)
                    ∧ events = l1 ++ l2).
Proof.
  unfold bind. destruct (m fs) as [[[a|e] fs1] l1].
  - destruct (k a fs1) as [[r2 fs2] l2] eqn:E. intros [= <- <- <-].
    right. by exists a, fs1, l1, l2.
  - intros [= <- <- <-]. left. by exists e.
Qed.

Lemma paths_apart_inv (p : Paths) :
  paths_apart p →
  (conversation_file p ≠ show_notes_file p
   ∧ conversation_file p ≠ podcast_file p
   ∧ conversation_file p ≠ last_run_file p
   ∧ show_notes_file p ≠ podcast_file p
   ∧ show_notes_file p ≠ last_run_file p
   ∧ podcast_file p ≠ last_run_file p)
  ∧ ∀ i, output_name i ≠ conversation_file p
         ∧ output_name i ≠ show_notes_file p
         ∧ output_name i ≠ podcast_file p
         ∧ output_name i ≠ last_run_file p.
Proof.
  intros [Hnd Hclip]. split.
  - apply NoDup_cons in Hnd as [H1 Hnd]. apply NoDup_cons in Hnd as [H2 Hnd].
    apply NoDup_cons in Hnd as [H3 _].
    repeat rewrite not_elem_of_cons in H1. repeat rewrite not_elem_of_cons in H2.
    repeat rewrite not_elem_of_cons in H3.
    destruct H1 as (? & ? & ? & _), H2 as (? & ? & _), H3 as (? & _).
    done.
  - intros i. specialize (Hclip i). repeat rewrite not_elem_of_cons in Hclip.
    by destruct Hclip as (? & ? & ? & ? & _).
Qed.

Lemma request_untargeted (path : string) (e : event) :
  is_request e → target e ≠ Some path.
Proof. by destruct e. Qed.

Lemma upload_untargeted (path : string) (e : event) :
  is_upload e → target e ≠ Some path.
Proof. by destruct e. Qed.

Lemma clip_write_elsewhere (path : string) (e : event) :
  (∀ i, output_name i ≠ path) → is_clip_write e → target e ≠ Some path.
Proof.
  intros Hp. destruct e as [| |q c| |]; try done. intros [i ->] [= H].
  by apply (Hp i).
Qed.

Lemma clip_remove_elsewhere (path : string) (e : event) :
  (∀ i, output_name i ≠ path) → is_clip_remove e → target e ≠ Some path.
Proof.
  intros Hp. destruct e as [| | |q|]; try done. intros [i ->] [= H].
  by apply (Hp i).
Qed.

Lemma write_elsewhere (path q : string) (e : event) :
  q ≠ path → (∃ c, e = WriteFile q c) → target e ≠ Some path.
Proof. intros Hq [c ->] [= H]. done. Qed.

(** A list of effects leaves [path] alone when each of its parts does. *)
Ltac untouched :=
  repeat first
    [ apply Forall_nil_2
    | apply Forall_app_2
    | apply Forall_cons_2
    | (eapply Forall_impl; [eassumption|]; intros ? ?;
       first [ by apply request_untargeted
             | by apply upload_untargeted
             | by apply clip_write_elsewhere
             | by apply clip_remove_elsewhere
             | by eapply write_elsewhere ])
    | (cbn; congruence) ].

Lemma replay_nil (fs : files) : replay [] fs = fs.
Proof. reflexivity. Qed.

Lemma replay_cons (e : event) (events : list event) (fs : files) :
  replay (e :: events) fs = replay events (replay_event fs e).
Proof. reflexivity. Qed.

(** Looking a path up after effects on other paths and a write to it. *)
Ltac lookup_replayed :=
  repeat first
    [ rewrite lookup_insert_eq; reflexivity
    | rewrite lookup_insert_ne by done
    | rewrite replay_untouched by untouched ].

Section Generation.

Context (w : World) (p : Paths) (extract : M value) (publish : M unit).

Hypothesis apart : paths_apart p.
Hypothesis extract_requests : within is_request extract.
Hypothesis publish_uploads : within is_upload publish.
Hypothesis publish_outcome : ∀ fs r fs' events,
  publish fs = (r, fs', events) →
  r = Return tt ∨ (r = Raise UploadError ∧ events ≠ []).

Lemma aborted (fs fs' : files) (events : list event) (e : exn) :
  fs' = replay events fs →
  Forall (λ ev, target ev ≠ Some (last_run_file p)) events →
  cycle_run w p fs (Raise e) fs' events.
Proof.
  intros -> H. apply cycle_aborted; [done|]. by apply replay_untouched.
Qed.

(** A generation is one of the two runs: stopped before the marker, or
    complete up to the marker and beyond. *)
Lemma generation_run (fs : files) (r : outcome unit) (fs' : files)
    (events : list event) :
  generation w p extract publish fs = (r, fs', events) →
  cycle_run w p fs r fs' events
  ∧ ∃ rx fsx requests more,
      extract fs = (rx, fsx, requests) ∧ events = requests ++ more.
Proof.
  destruct (paths_apart_inv p apart)
    as ((Hcn & Hcp & Hcm & Hnp & Hnm & Hpm) & Hclip).
  assert (∀ i, output_name i ≠ conversation_file p) as Hclip_c
    by (intros i; apply Hclip).
  assert (∀ i, output_name i ≠ show_notes_file p) as Hclip_n
    by (intros i; apply Hclip).
  assert (∀ i, output_name i ≠ podcast_file p) as Hclip_p
    by (intros i; apply Hclip).
  assert (∀ i, output_name i ≠ last_run_file p) as Hclip_m
    by (intros i; apply Hclip).
  clear Hclip.
  intros E. unfold generation in E.
  (* the conversation *)
  apply bind_inv in E
    as [(e & E1 & ->) | (conversation & fs1 & l1 & l2 & E1 & E & ->)];
    pose proof (extract_requests _ _ _ _ E1) as [H1 Hfs1].
  { split; [|by exists (Raise e), fs', events, []; rewrite app_nil_r].
    apply aborted; [done|untouched]. }
  split; [|by exists (Return conversation), fs1, l1, l2].
  (* the two files *)
  apply bind_inv in E
    as [(e & [= ] & _) | ([] & fs2 & l & l3 & [= <- <-] & E & ->)].
  apply bind_inv in E
    as [(e & [= ] & _) | ([] & fs3 & l & l4 & [= <- <-] & E & ->)].
  (* the clips *)
  apply bind_inv in E
    as [(e & E4 & ->) | (audio_files & fs4 & l4' & l5 & E4 & E & ->)];
    pose proof (generate_audio_parallel_effects _ _ _ _ _ _ E4)
      as (H4 & Hfs4 & Hfiles).
  { apply aborted; [subst; by rewrite !replay_app|untouched]. }
  destruct (Hfiles _ eq_refl) as [n ->].
  (* the episode *)
  apply bind_inv in E
    as [(e & E5 & ->) | ([] & fs5 & l & l6 & E5 & E & ->)];
    pose proof (merge_audio_files_effects _ _ _ _ _ _ _ E5)
      as (Hfs5 & [(mp3 & Hr & Hev) | (e' & Hr & Hev)]); try done.
  { apply aborted; [subst; by rewrite !replay_app|untouched]. }
  subst l.
  (* the clips are removed *)
  apply bind_inv in E
    as [(e & E6 & ->) | ([] & fs6 & l6' & l7 & E6 & E & ->)];
    pose proof (within_remove_clips n 0 _ _ _ _ E6) as [H6 Hfs6].
  { apply aborted; [subst; by rewrite !replay_app|untouched]. }
  (* the marker, and what follows *)
  apply bind_inv in E
    as [(e & [= ] & _) | ([] & fs7 & l & l8 & [= <- <-] & E & ->)].
  pose proof (publish_uploads _ _ _ _ E) as [H8 Hfs8].
  pose proof (publish_outcome _ _ _ _ E) as Hpub.
  assert (fs' = replay
            (l1 ++ [WriteFile (conversation_file p) (json_dumps w conversation);
                    WriteFile (show_notes_file p) (generate_show_notes (items w))]
               ++ l4' ++ [WriteFile (podcast_file p) mp3] ++ l6'
               ++ [WriteFile (last_run_file p) (strftime_Ymd (today_at_end w))]
               ++ l8) fs) as ->.
  { subst fs' fs6 fs5 fs4 fs1. by rewrite !replay_app. }
  eapply (cycle_completed w p fs r _ conversation mp3 l1 l4' l6' l8);
    try done.
  all: rewrite !replay_app, !replay_cons, !replay_nil; cbn [replay_event];
    lookup_replayed.
Qed.

End Generation.

(** ** The two scripts *)

Lemma clip_name_starts_with_a (i : nat) (path : string) :
  (∀ rest, path ≠ String "a" rest) → output_name i ≠ path.
Proof. intros H E. by apply (H ("udio_" +:+ pretty i +:+ ".mp3")). Qed.

Lemma app_paths_apart : paths_apart App.paths.
Proof.
  split.
  - apply (bool_decide_unpack _). vm_compute. exact I.
  - intros i H. cbn in H.
    repeat (apply elem_of_cons in H as [H|H];
            [by apply clip_name_starts_with_a in H|]).
    by apply not_elem_of_nil in H.
Qed.

Lemma cloudflare_paths_apart : paths_apart Cloudflare.paths.
Proof.
  split.
  - apply (bool_decide_unpack _). vm_compute. exact I.
  - intros i H. cbn in H.
    repeat (apply elem_of_cons in H as [H|H];
            [by apply clip_name_starts_with_a in H|]).
    by apply not_elem_of_nil in H.
Qed.

Lemma ret_outcome (fs : files) (r : outcome unit) (fs' : files)
    (events : list event) :
  ret tt fs = (r, fs', events) →
  r = Return tt ∨ (r = Raise UploadError ∧ events ≠ []).
Proof. intros [= <- <- <-]. by left. Qed.

Lemma within_upload_to_r2 (w : World) (filename bucket_name : string) :
  within is_upload (Cloudflare.upload_to_r2 w filename bucket_name).
Proof.
  apply within_bind; [by apply within_emit|]. intros _.
  destruct (upload_ok w filename); [apply within_ret|apply within_raise].
Qed.

Lemma upload_to_r2_outcome (w : World) (filename bucket_name : string)
    (fs : files) (r : outcome unit) (fs' : files) (events : list event) :
  Cloudflare.upload_to_r2 w filename bucket_name fs = (r, fs', events) →
  events ≠ [] ∧ (r = Return tt ∨ r = Raise UploadError).
Proof.
  unfold Cloudflare.upload_to_r2, bind, emit.
  destruct (upload_ok w filename); intros [= <- <- <-]; split; auto.
Qed.

Lemma within_uploads (w : World) : within is_upload (Cloudflare.uploads w).
Proof.
  unfold Cloudflare.uploads.
  repeat (apply within_bind; [apply within_upload_to_r2|intros _]).
  apply within_upload_to_r2.
Qed.

Lemma uploads_outcome (w : World) (fs : files) (r : outcome unit)
    (fs' : files) (events : list event) :
  Cloudflare.uploads w fs = (r, fs', events) →
  r = Return tt ∨ (r = Raise UploadError ∧ events ≠ []).
Proof.
  unfold Cloudflare.uploads. intros E.
  apply bind_inv in E as [(e & E1 & ->) | ([] & fs1 & l1 & l2 & E1 & E & ->)];
    apply upload_to_r2_outcome in E1 as [Hne [?|?]]; try done;
    [right; split; congruence|].
  apply bind_inv in E as [(e & E2 & ->) | ([] & fs2 & l3 & l4 & E2 & E & ->)];
    apply upload_to_r2_outcome in E2 as [Hne2 [?|?]]; try done;
    [right; split; [congruence|by destruct l1]|].
  apply upload_to_r2_outcome in E as [Hne3 [?|?]]; [by left|].
  right. split; [done|by destruct l1].
Qed.

(** The first effect of a generation in [app.py] is the first request. *)
Lemma app_extract_first (w : World) (text : string) (items : list PaperItem)
    (fs : files) :
  ∃ rx fsx rest,
    App.extract_conversation w text items App.default_max_retries fs
    = (rx, fsx, Completion 1 (build_prompt text items) :: rest).
Proof.
  unfold App.extract_conversation.
  change (range 1 (App.default_max_retries + 1)) with [1; 2; 3]%Z.
  cbn [App.extract_loop]. unfold try_except at 1.
  rewrite request_conversation_run.
  destruct (answer w 1 text items) as [parsed|e]; [by eauto|].
  change (1 <? App.default_max_retries)%Z with true. cbv iota.
  destruct (bind _ _ fs) as [[r fs'] l]. eauto.
Qed.

Lemma cloudflare_extract_first (w : World) (text : string)
    (items : list PaperItem) (fs : files) :
  ∃ rx fsx rest,
    Cloudflare.extract_conversation w text items fs
    = (rx, fsx, Completion 1 (build_prompt text items) :: rest).
Proof.
  unfold Cloudflare.extract_conversation. rewrite request_conversation_run.
  eauto.
Qed.

Section Cycle.

Context (w : World) (p : Paths) (extract : M value) (publish : M unit).

Hypothesis apart : paths_apart p.
Hypothesis extract_requests : within is_request extract.
Hypothesis publish_uploads : within is_upload publish.
Hypothesis publish_outcome : ∀ fs r fs' events,
  publish fs = (r, fs', events) →
  r = Return tt ∨ (r = Raise UploadError ∧ events ≠ []).

(** The cycle behind the gate: skipped on a marker of today; otherwise one
    of the two runs, which starts with the effects of the extraction, and
    which, when it returns, leaves a marker that is fresh for any later
    invocation on the day it ended. *)
Lemma daily_cycle_gate (w2 : World) (fs : files) :
  today_at_gate w2 = today_at_end w →
  if fresh w (last_run_file p) fs
  then daily_cycle w p extract publish fs = (Return tt, fs, [])
  else ∃ r fs' events,
      daily_cycle w p extract publish fs = (r, fs', events)
      ∧ cycle_run w p fs r fs' events
      ∧ (∃ rx fsx requests more,
           extract fs = (rx, fsx, requests) ∧ events = requests ++ more)
      ∧ (r = Return tt → fresh w2 (last_run_file p) fs' = true).
Proof.
  intros Hday. destruct (fresh w (last_run_file p) fs) eqn:Hfresh.
  { by apply daily_cycle_fresh. }
  rewrite daily_cycle_stale by done.
  destruct (generation w p extract publish fs) as [[r fs'] events] eqn:E.
  exists r, fs', events. split; [done|].
  destruct (generation_run w p extract publish apart extract_requests
              publish_uploads publish_outcome _ _ _ _ E) as [Hrun Hx].
  split; [done|]. split; [done|]. intros ->.
  inversion Hrun as [|? ? ? ? ? ? ? ? _ _ _ _ _ _ _ _ Hmarker]; subst.
  unfold fresh. rewrite Hmarker, strip_strftime, Hday.
  apply String.eqb_refl.
Qed.

End Cycle.

(** ** C1 *)

(** C1, on the code.  The handler of the force button calls
    [generate_podcast], which has no parameter: on a marker of today it
    returns at once, without a request and without touching a file.  The
    docstring of [generate_podcast] says "once per day or on force
    generate". *)
Theorem force_generate_skipped_on_fresh_marker (w : World) (fs : files) :
  fresh w App.LAST_RUN_FILE fs = true →
  App.force_generate w fs = (Return tt, fs, []).
Proof.
  intros H. unfold App.force_generate, App.generate_podcast.
  by apply daily_cycle_fresh.
Qed.

Lemma force_generate_skipped_on_fresh_marker_witness :
  fresh Demo.answered App.LAST_RUN_FILE Demo.generated_today = true
  ∧ App.force_generate Demo.answered Demo.generated_today
    = (Return tt, Demo.generated_today, []).
Proof.
  split; [vm_compute; reflexivity|].
  apply (force_generate_skipped_on_fresh_marker Demo.answered
           Demo.generated_today).
  vm_compute. reflexivity.
Defined.

(** ** C2 *)

Lemma synthesize_all_none (w : World) (tasks : list task) :
  Exists (λ t, synthesize w t = None) tasks → synthesize_all w tasks = None.
Proof.
  induction 1 as [t tasks H|t tasks _ IH]; cbn [synthesize_all].
  - by rewrite H.
  - rewrite IH. by destruct (synthesize w t).
Qed.

(** C2, as the code has it.  When the conversation has been extracted and
    the speech request of some line fails, [generate_podcast] stops on the
    exception of the speech stage: the episode and the marker are as they
    were, and nothing but clips has been written since the show notes; but
    by then the conversation and the show notes of this run have been
    written. *)
Theorem synthesis_failure_keeps_episode_only (w : World) (fs : files)
    (conversation dialogue : value) (lines : list value) (tasks : list task)
    (requests : list event) :
  fresh w App.LAST_RUN_FILE fs = false →
  App.extract_conversation w (daily_feed w) (items w) App.default_max_retries fs
  = (Return conversation, fs, requests) →
  subscript conversation "conversation" = Return dialogue →
  iterate dialogue = Return lines →
  line_tasks 0 lines = Return tasks →
  Exists (λ t, synthesize w t = None) tasks →
  ∃ fs' leftovers,
    App.generate_podcast w fs
    = (Raise NoAudioReceived, fs',
       requests
         ++ [WriteFile App.CONVERSATION_FILE (json_dumps w conversation);
             WriteFile App.SHOW_NOTES_FILE (generate_show_notes (items w))]
         ++ leftovers)
    ∧ Forall is_clip_write leftovers
    ∧ fs' !! App.PODCAST_FILE = fs !! App.PODCAST_FILE
    ∧ fs' !! App.LAST_RUN_FILE = fs !! App.LAST_RUN_FILE
    ∧ fs' !! App.CONVERSATION_FILE = Some (json_dumps w conversation)
    ∧ fs' !! App.SHOW_NOTES_FILE = Some (generate_show_notes (items w)).
Proof.
  intros Hstale Hx Hd Hl Ht Hfail.
  destruct (paths_apart_inv App.paths app_paths_apart)
    as ((Hcn & Hcp & Hcm & Hnp & Hnm & Hpm) & Hclip).
  cbn [conversation_file show_notes_file podcast_file last_run_file App.paths]
    in *.
  assert (∀ i, output_name i ≠ App.CONVERSATION_FILE) as Hclip_c
    by (intros i; apply Hclip).
  assert (∀ i, output_name i ≠ App.SHOW_NOTES_FILE) as Hclip_n
    by (intros i; apply Hclip).
  assert (∀ i, output_name i ≠ App.PODCAST_FILE) as Hclip_p
    by (intros i; apply Hclip).
  assert (∀ i, output_name i ≠ App.LAST_RUN_FILE) as Hclip_m
    by (intros i; apply Hclip).
  clear Hclip.
  set (fs2 := <[App.SHOW_NOTES_FILE := generate_show_notes (items w)]>
                (<[App.CONVERSATION_FILE := json_dumps w conversation]> fs)).
  destruct (abandon w 0 tasks fs2) as [[ra fsa] la] eqn:Ea.
  destruct (abandon_returns w tasks 0 fs2) as (fsa' & la' & Ea').
  rewrite Ea in Ea'. injection Ea' as -> <- <-.
  assert (clip_outputs tasks) as Hout
    by (eapply clip_outputs_of_names, line_tasks_outputs; eauto).
  destruct (within_abandon w tasks Hout 0 _ _ _ _ Ea) as [Hla ->].
  exists (replay la fs2), la. split.
  - unfold App.generate_podcast. rewrite daily_cycle_stale by done.
    unfold generation, bind. rewrite Hx.
    cbn [save_to_file conversation_file show_notes_file App.paths].
    unfold save_to_file. fold fs2.
    rewrite (generate_audio_parallel_run w conversation dialogue lines tasks
               fs2 Hd Hl Ht).
    unfold gather. rewrite (synthesize_all_none w tasks Hfail).
    unfold bind. rewrite Ea. cbn. by rewrite app_nil_r.
  - split; [done|]. subst fs2. repeat split; lookup_replayed; done.
Qed.

Lemma synthesis_failure_keeps_episode_only_witness :
  let w := Demo.refused in
  let fs := Demo.yesterday in
  ∃ fs' leftovers,
    App.generate_podcast w fs
    = (Raise NoAudioReceived, fs',
       [Completion 1 (build_prompt (daily_feed w) (items w))]
         ++ [WriteFile App.CONVERSATION_FILE (json_dumps w Demo.silent_parsed);
             WriteFile App.SHOW_NOTES_FILE (generate_show_notes (items w))]
         ++ leftovers)
    ∧ Forall is_clip_write leftovers
    ∧ fs' !! App.PODCAST_FILE = fs !! App.PODCAST_FILE
    ∧ fs' !! App.LAST_RUN_FILE = fs !! App.LAST_RUN_FILE
    ∧ fs' !! App.CONVERSATION_FILE = Some (json_dumps w Demo.silent_parsed)
    ∧ fs' !! App.SHOW_NOTES_FILE = Some (generate_show_notes (items w)).
Proof.
  apply (synthesis_failure_keeps_episode_only Demo.refused Demo.yesterday
           Demo.silent_parsed
           (JArr [Demo.spoken "Brian" "Welcome back."; Demo.spoken "Jenny" ""])
           [Demo.spoken "Brian" "Welcome back."; Demo.spoken "Jenny" ""]
           Demo.silent_tasks
           [Completion 1 (build_prompt (daily_feed Demo.refused)
                            (items Demo.refused))]).
  - vm_compute. reflexivity.
  - vm_compute. reflexivity.
  - reflexivity.
  - reflexivity.
  - vm_compute. reflexivity.
  - apply Exists_cons_tl, Exists_cons_hd. reflexivity.
Defined.

(** C2, as stated, fails: the speech service refuses the second line of
    today's dialogue, the run stops, and the conversation and the show notes
    of the day before are gone; only the episode and the marker are as they
    were. *)
Lemma synthesis_failure_overwrites_conversation :
  let run := App.generate_podcast Demo.refused Demo.yesterday in
  run.1.1 = Raise NoAudioReceived
  ∧ run.1.2 !! App.CONVERSATION_FILE ≠ Demo.yesterday !! App.CONVERSATION_FILE
  ∧ run.1.2 !! App.SHOW_NOTES_FILE ≠ Demo.yesterday !! App.SHOW_NOTES_FILE
  ∧ run.1.2 !! App.PODCAST_FILE = Demo.yesterday !! App.PODCAST_FILE
  ∧ run.1.2 !! App.LAST_RUN_FILE = Demo.yesterday !! App.LAST_RUN_FILE.
Proof.
  cbv zeta. split; [vm_compute; reflexivity|].
  split; [vm_compute; discriminate|]. split; [vm_compute; discriminate|].
  split; vm_compute; reflexivity.
Qed.

(** ** Two runs, step by step *)

(** A first attempt without an object, the wait, a second attempt that
    succeeds. *)
Example extract_conversation_second_attempt :
  App.extract_conversation Demo.answered_late "" Demo.papers 3 ∅
  = (Return Demo.parsed_reply, ∅,
     [Completion 1 (build_prompt "" Demo.papers); Sleep 2;
      Completion 2 (build_prompt "" Demo.papers)]).
Proof. vm_compute. reflexivity. Qed.

(** The cycle on the files of the day before: one request, the conversation,
    the show notes, a clip per line, the episode made of the two clips, the
    clips removed, the marker. *)
Example generate_podcast_on_stale_marker :
  let w := Demo.answered in
  let run := App.generate_podcast w Demo.yesterday in
  run.1.1 = Return tt
  ∧ run.2
    = [Completion 1 (build_prompt (daily_feed w) Demo.papers);
       WriteFile "conversation.json" (Json.dumps Demo.parsed_reply);
       WriteFile "show_notes.txt" (generate_show_notes Demo.papers);
       WriteFile "audio_0.mp3" "<en-GB-RyanNeural|Welcome back.>";
       WriteFile "audio_1.mp3"
         "<en-US-AvaMultilingualNeural|Two papers today.>";
       WriteFile "merged_audio.mp3"
         ("<en-GB-RyanNeural|Welcome back.>"
            +:+ "<en-US-AvaMultilingualNeural|Two papers today.>");
       RemoveFile "audio_0.mp3"; RemoveFile "audio_1.mp3";
       WriteFile "last_run.txt" "2026-11-03"]
  ∧ run.1.2 !! "last_run.txt" = Some "2026-11-03"
  ∧ run.1.2 !! "audio_0.mp3" = None.
Proof. cbv zeta. repeat split; vm_compute; reflexivity. Qed.

(** * Further properties *)

(** ** The show notes *)

Lemma show_notes_loop_entries (items : list PaperItem) :
  ∀ notes i,
    show_notes_loop notes i items = notes +:+ numbered_entries i items.
Proof.
  induction items as [|item rest IH]; intros notes i.
  - cbn. by rewrite string_app_nil_r.
  - cbn [show_notes_loop numbered_entries]. rewrite IH.
    by rewrite string_app_assoc.
Qed.

Lemma numbered_entries_app (items more : list PaperItem) :
  ∀ i, numbered_entries i (items ++ more)
       = numbered_entries i items
           +:+ numbered_entries (i + List.length items) more.
Proof.
  induction items as [|item rest IH]; intros i.
  - cbn. by rewrite Nat.add_0_r.
  - cbn [app numbered_entries List.length]. rewrite IH, string_app_assoc.
    by replace (S i + List.length rest)%nat
      with (i + S (List.length rest))%nat by lia.
Qed.

Lemma numbered_entries_contains (items : list PaperItem) :
  ∀ first i item,
    items !! i = Some item →
    contains (numbered_entries first items) (show_note (first + i) item).
Proof.
  induction items as [|x rest IH]; intros first i item Hi; [done|].
  cbn [numbered_entries]. destruct i as [|i]; cbn in Hi.
  - injection Hi as ->. rewrite Nat.add_0_r. auto with contains.
  - apply contains_app_r.
    replace (first + S i)%nat with (S first + i)%nat by lia. by apply IH.
Qed.

(** The show notes are the header and then one entry per item, in the order
    of the items, the entry of the item at index [i] numbered [i + 1]; for
    no item they are the header alone, and the notes of a longer list are
    the notes of its beginning followed by the entries of the rest, the
    numbers going on. *)
Theorem show_notes_numbered_in_order (items more : list PaperItem) :
  generate_show_notes items = notes_header +:+ numbered_entries 0 items
  ∧ generate_show_notes [] = notes_header
  ∧ generate_show_notes (items ++ more)
    = generate_show_notes items
        +:+ numbered_entries (List.length items) more
  ∧ numbered_entries (List.length items) more
    = match more with
      | [] => ""
      | item :: rest =>
          pretty (List.length items + 1)%nat +:+ ". **" +:+ title item
          +:+ "**" +:+ nl +:+ "   - " +:+ description item +:+ nl
          +:+ "   - [Read More](" +:+ link item +:+ ")" +:+ nl +:+ nl
          +:+ numbered_entries (S (List.length items)) rest
      end.
Proof.
  assert (∀ l, generate_show_notes l = notes_header +:+ numbered_entries 0 l)
    as H by (intros l; apply show_notes_loop_entries).
  split; [apply H|]. split; [reflexivity|]. split.
  - rewrite !H, numbered_entries_app. by rewrite string_app_assoc.
  - destruct more as [|item rest]; [done|]. cbn [numbered_entries].
    unfold show_note. by rewrite !string_app_assoc.
Qed.

(** Every item is in the show notes with its number, its title, its
    description and its link as they are. *)
Theorem show_notes_render_every_item (items : list PaperItem) (i : nat)
    (item : PaperItem) :
  items !! i = Some item →
  contains (generate_show_notes items)
    (pretty (i + 1)%nat +:+ ". **" +:+ title item +:+ "**" +:+ nl)
  ∧ contains (generate_show_notes items)
      ("   - " +:+ description item +:+ nl)
  ∧ contains (generate_show_notes items)
      ("   - [Read More](" +:+ link item +:+ ")" +:+ nl +:+ nl).
Proof.
  intros Hi.
  assert (contains (generate_show_notes items) (show_note i item)) as H.
  { unfold generate_show_notes. rewrite show_notes_loop_entries.
    apply contains_app_r. exact (numbered_entries_contains items 0 i item Hi). }
  repeat split; (eapply contains_trans; [exact H|]); unfold show_note.
  - exists "", ("   - " +:+ description item +:+ nl +:+ "   - [Read More]("
                  +:+ link item +:+ ")" +:+ nl +:+ nl).
    by rewrite string_app_nil_l, !string_app_assoc.
  - exists (pretty (i + 1)%nat +:+ ". **" +:+ title item +:+ "**" +:+ nl),
      ("   - [Read More](" +:+ link item +:+ ")" +:+ nl +:+ nl).
    by rewrite !string_app_assoc.
  - exists (pretty (i + 1)%nat +:+ ". **" +:+ title item +:+ "**" +:+ nl
              +:+ "   - " +:+ description item +:+ nl), "".
    by rewrite string_app_nil_r, !string_app_assoc.
Qed.

Lemma show_notes_render_every_item_witness :
  contains (generate_show_notes Demo.papers)
    (pretty (1 + 1)%nat +:+ ". **" +:+ "Learning to Retrieve" +:+ "**" +:+ nl)
  ∧ contains (generate_show_notes Demo.papers)
      ("   - " +:+ "A retriever trained end to end." +:+ nl)
  ∧ contains (generate_show_notes Demo.papers)
      ("   - [Read More](" +:+ "https://example.org/papers/2" +:+ ")"
         +:+ nl +:+ nl).
Proof.
  apply (show_notes_render_every_item Demo.papers 1
           {| title := "Learning to Retrieve";
              link := "https://example.org/papers/2";
              description := "A retriever trained end to end." |}).
  reflexivity.
Defined.

(** ** The requests of [extract_conversation] *)

Lemma replay_requests (events : list event) (fs : files) :
  Forall is_request events → replay events fs = fs.
Proof.
  induction 1 as [|e events He _ IH]; [done|].
  rewrite replay_cons. by destruct e.
Qed.

Section Requests.

Context (w : World) (text : string) (items : list PaperItem) (max_retries : Z).

(** The loop from attempt [a] on, [n] attempts left: at most [n] requests,
    the wait between two requests and after none, and no exception but the
    one of the last attempt allowed. *)
Lemma extract_loop_requests (n : nat) :
  ∀ (a : Z) (fs : files) (r : outcome value) (fs' : files)
    (events : list event),
    (a + Z.of_nat n = max_retries + 1)%Z →
    App.extract_loop w text items max_retries (range a (max_retries + 1)) fs
    = (r, fs', events) →
    ∃ k : nat, (k ≤ n)%nat ∧ (k = 0%nat ↔ n = 0%nat)
         ∧ events = exhausted_events (build_prompt text items) 2 a k
         ∧ (k = 0%nat → r = Return JNull)
         ∧ (∀ e, r = Raise e → e = exhausted max_retries ∧ k = n).
Proof.
  induction n as [|n IH]; intros a fs r fs' events Ha E.
  - rewrite range_nil in E by lia. injection E as <- <- <-.
    exists 0. by repeat split.
  - rewrite range_cons in E by lia. cbn [App.extract_loop] in E.
    unfold try_except in E. rewrite request_conversation_run in E.
    destruct (answer w a text items) as [parsed|e0].
    { injection E as <- <- <-. exists 1. repeat split; try lia; try done. }
    destruct (a <? max_retries)%Z eqn:Hlt.
    + apply Z.ltb_lt in Hlt.
      unfold bind, sleep, emit in E.
      destruct (App.extract_loop w text items max_retries
                  (range (a + 1) (max_retries + 1)) fs)
        as [[r1 fs1] l1] eqn:E1.
      injection E as <- <- <-.
      destruct (IH (a + 1)%Z fs r1 fs1 l1) as (k & Hk & Hk0 & -> & Hnull & Hr);
        [lia|done|].
      destruct k as [|k].
      { destruct n; [lia|]. destruct Hk0 as [H0 _]. by specialize (H0 eq_refl). }
      exists (S (S k)). split; [lia|]. split; [split; lia|].
      split; [by rewrite exhausted_events_step|]. split; [lia|].
      intros e He. destruct (Hr e He) as [-> Hn]. split; [done|lia].
    + apply Z.ltb_ge in Hlt. injection E as <- <- <-.
      exists 1. split; [lia|]. split; [split; lia|]. split; [done|].
      split; [lia|]. intros e [= <-]. split; [done|lia].
Qed.

End Requests.

(** Whatever the service answers, [extract_conversation] leaves the files
    alone and makes at most [max_retries] requests, numbered from 1, each
    but the last followed by a wait of 2 seconds; it makes none exactly when
    [max_retries] is not positive, and then returns [None]; and when it
    raises, it has made all [max_retries] requests and the exception is the
    [RuntimeError] of the last line, whatever the attempts raised. *)
Theorem extract_conversation_requests (w : World) (text : string)
    (items : list PaperItem) (max_retries : Z) (fs : files)
    (r : outcome value) (fs' : files) (events : list event) :
  App.extract_conversation w text items max_retries fs = (r, fs', events) →
  fs' = fs
  ∧ ∃ k : nat, (k ≤ Z.to_nat max_retries)%nat
         ∧ events = exhausted_events (build_prompt text items) 2 1 k
         ∧ (k = 0%nat ↔ (max_retries ≤ 0)%Z)
         ∧ (k = 0%nat → r = Return JNull)
         ∧ (∀ e, r = Raise e →
              e = RuntimeError ("Failed after " +:+ pretty max_retries
                                  +:+ " attempts.")
              ∧ k = Z.to_nat max_retries).
Proof.
  intros E. split.
  - destruct (within_app_extract_conversation w text items max_retries
                _ _ _ _ E) as [H ->]. by apply replay_requests.
  - unfold App.extract_conversation in E.
    destruct (Z_le_gt_dec max_retries 0) as [Hle|Hgt].
    + rewrite range_nil in E by lia. injection E as <- <- <-.
      exists 0. split; [lia|]. by repeat split.
    + destruct (extract_loop_requests w text items max_retries
                  (Z.to_nat max_retries) 1 fs r fs' events)
        as (k & Hk & Hk0 & -> & Hnull & Hr); [lia|done|].
      exists k. split; [done|]. split; [done|]. split; [|by split].
      split; [intros ->; destruct Hk0 as [H0 _]; specialize (H0 eq_refl); lia
             |lia].
Qed.

Lemma extract_conversation_requests_witness :
  (∅ : files) = ∅
  ∧ ∃ k : nat, (k ≤ Z.to_nat 3)%nat
         ∧ [Completion 1 (build_prompt "" Demo.papers); Sleep 2;
            Completion 2 (build_prompt "" Demo.papers)]
           = exhausted_events (build_prompt "" Demo.papers) 2 1 k
         ∧ (k = 0%nat ↔ (3 ≤ 0)%Z)
         ∧ (k = 0%nat → Return Demo.parsed_reply = Return JNull)
         ∧ (∀ e, Return Demo.parsed_reply = Raise e →
              e = RuntimeError ("Failed after " +:+ pretty 3%Z
                                  +:+ " attempts.")
              ∧ k = Z.to_nat 3).
Proof.
  apply (extract_conversation_requests Demo.answered_late "" Demo.papers 3 ∅
           (Return Demo.parsed_reply) ∅
           [Completion 1 (build_prompt "" Demo.papers); Sleep 2;
            Completion 2 (build_prompt "" Demo.papers)]).
  vm_compute. reflexivity.
Defined.

(** ** A generation without a conversation *)

(** When no attempt yields a conversation the cycle writes nothing: in
    [app.py] the three requests and the two waits are all that happens and
    the [RuntimeError] reaches the caller; in [cloudflare_app.py] the first
    failure does, after a single request.  The files are as they were, the
    marker included, so the next invocation tries again. *)
Theorem generation_without_conversation_writes_nothing (w : World)
    (fs : files) :
  fresh w "last_run.txt" fs = false →
  (∀ attempt, (1 ≤ attempt ≤ 3)%Z →
     ∃ e, answer w attempt (daily_feed w) (items w) = Raise e) →
  let prompt := build_prompt (daily_feed w) (items w) in
  App.generate_podcast w fs
  = (Raise (RuntimeError "Failed after 3 attempts."), fs,
     [Completion 1 prompt; Sleep 2; Completion 2 prompt; Sleep 2;
      Completion 3 prompt])
  ∧ ∃ e, answer w 1 (daily_feed w) (items w) = Raise e
         ∧ Cloudflare.run_podcast_generation w fs
           = (Raise e, fs, [Completion 1 prompt]).
Proof.
  intros Hstale Hfail prompt. split.
  - unfold App.generate_podcast. rewrite daily_cycle_stale by done.
    unfold generation, bind at 1, App.extract_conversation.
    rewrite (extract_loop_failures w (daily_feed w) (items w)
               App.default_max_retries 2 1 3); [|done|done|].
    + destruct (Hfail 3%Z) as [e He]; [lia|].
      change (range 3 (App.default_max_retries + 1))
        with (range App.default_max_retries (App.default_max_retries + 1)).
      by rewrite (extract_loop_last w (daily_feed w) (items w)
                    App.default_max_retries fs e He).
    + intros a Ha. apply Hfail. lia.
  - destruct (Hfail 1%Z) as [e He]; [lia|]. exists e. split; [done|].
    unfold Cloudflare.run_podcast_generation.
    rewrite daily_cycle_stale by done.
    unfold generation, bind at 1, Cloudflare.extract_conversation.
    by rewrite request_conversation_run, He.
Qed.

Lemma generation_without_conversation_writes_nothing_witness :
  let w := Demo.unanswered in
  let prompt := build_prompt (daily_feed w) (items w) in
  App.generate_podcast w Demo.yesterday
  = (Raise (RuntimeError "Failed after 3 attempts."), Demo.yesterday,
     [Completion 1 prompt; Sleep 2; Completion 2 prompt; Sleep 2;
      Completion 3 prompt])
  ∧ ∃ e, answer w 1 (daily_feed w) (items w) = Raise e
         ∧ Cloudflare.run_podcast_generation w Demo.yesterday
           = (Raise e, Demo.yesterday, [Completion 1 prompt]).
Proof.
  apply (generation_without_conversation_writes_nothing Demo.unanswered
           Demo.yesterday).
  - vm_compute. reflexivity.
  - intros attempt _. eexists. vm_compute. reflexivity.
Defined.

(** ** What the pattern can match *)

Lemma inner_star_sound (n : nat) :
  ∀ (t : string) (k : string → option string) (r : string),
    Re.star_loop (Re.NoneOf [lbrace; rbrace]) k n t = Some r →
    ∃ inner u, t = inner +:+ u ∧ no_brace inner = true ∧ k u = Some r.
Proof.
  induction n as [|n IH]; intros t k r E.
  { by exists "", t. }
  cbn [Re.star_loop] in E. destruct t as [|c t]; [by exists "", ""|].
  rewrite run_none_of, not_brace_mem in E.
  destruct (not_brace c) eqn:Hc; cbn [negb] in E; [|by exists "", (String c t)].
  destruct (Nat.ltb _ _); [|by exists "", (String c t)].
  destruct (Re.star_loop _ k n t) as [x|] eqn:E1; [|by exists "", (String c t)].
  injection E as ->. destruct (IH t k r E1) as (inner & u & -> & Hnb & Hk).
  exists (String c inner), u. split; [done|]. split; [|done].
  unfold no_brace in *. cbn [all_chars]. by rewrite Hc, Hnb.
Qed.

Lemma inside_group (inner s : string) :
  no_brace inner = true →
  inside true (inner +:+ String rbrace s) = inside false s.
Proof.
  induction inner as [|c inner IH]; [done|]. unfold no_brace in *.
  cbn [all_chars]. intros [Hc Hnb]%andb_true_iff. rewrite string_app_cons.
  cbn [inside]. apply not_brace_lbrace in Hc as [Hl Hr].
  rewrite (Ascii.eqb_sym c lbrace), Hl, (Ascii.eqb_sym c rbrace), Hr. auto.
Qed.

Lemma closing_sound (t rest : string) :
  closing Some t = Some rest → t = String rbrace rest.
Proof.
  unfold closing. destruct t as [|c t]; [done|]. rewrite run_chr.
  destruct (Ascii.eqb_spec rbrace c) as [<-|]; [|done]. by intros [= ->].
Qed.

Lemma outer_star_sound (n : nat) :
  ∀ (t rest : string),
    Re.star_loop item_regex (closing Some) n t = Some rest →
    ∃ body, t = body +:+ String rbrace rest
            ∧ inside false (body +:+ String rbrace EmptyString) = true.
Proof.
  induction n as [|n IH]; intros t rest E.
  { apply closing_sound in E as ->. by exists "". }
  cbn [Re.star_loop] in E.
  destruct (Re.run item_regex t _) as [x|] eqn:Ex;
    [injection E as ->|apply closing_sound in E as ->; by exists ""].
  destruct t as [|c t]; [done|]. unfold item_regex in Ex.
  rewrite run_alt, run_none_of, run_cat, run_chr in Ex.
  destruct (Ascii.eqb_spec lbrace c) as [<-|Hl].
  - change (Re.mem lbrace [lbrace; rbrace]) with true in Ex. cbv iota beta in Ex.
    rewrite run_cat, run_star in Ex.
    apply inner_star_sound in Ex as (inner & u & -> & Hnb & Hk).
    destruct u as [|c2 u]; [done|]. rewrite run_chr in Hk.
    destruct (Ascii.eqb_spec rbrace c2) as [<-|]; [|done].
    destruct (Nat.ltb _ _); [|done].
    apply IH in Hk as (body & -> & Hin).
    exists (String lbrace (inner +:+ String rbrace body)).
    rewrite !string_app_cons, !string_app_assoc, !string_app_cons.
    split; [done|]. cbn [inside]. change (Ascii.eqb lbrace lbrace) with true.
    cbv iota. by rewrite inside_group.
  - destruct (Re.mem c [lbrace; rbrace]) eqn:Hm; [done|].
    destruct (Nat.ltb _ _); [|done].
    destruct (Re.star_loop _ _ n t) as [y|] eqn:Ey; [|done].
    injection Ex as ->. apply IH in Ey as (body & -> & Hin).
    exists (String c body). rewrite !string_app_cons. split; [done|].
    cbn [inside]. unfold Re.mem in Hm. cbn [existsb] in Hm.
    apply orb_false_iff in Hm as [H1 [H2 _]%orb_false_iff]. by rewrite H1, H2.
Qed.

Lemma match_at_sound (s m : string) :
  Re.match_at pattern s = Some m →
  one_level_object m = true ∧ ∃ after, s = m +:+ after.
Proof.
  unfold Re.match_at. destruct (Re.run pattern s Some) as [rest|] eqn:E; [|done].
  intros [= <-]. unfold pattern in E. fold item_regex in E.
  destruct s as [|c s]; [done|]. rewrite run_cat, run_chr in E.
  destruct (Ascii.eqb_spec lbrace c) as [<-|]; [|done].
  rewrite run_cat, run_star in E. fold (closing Some) in E.
  apply outer_star_sound in E as (body & -> & Hin).
  replace (String lbrace (body +:+ String rbrace rest))
    with (String lbrace (body +:+ String rbrace EmptyString) +:+ rest)
    by (by rewrite string_app_cons, string_app_assoc).
  replace (_ - _)%nat
    with (String.length (String lbrace (body +:+ String rbrace EmptyString)))
    by (rewrite string_length_app; lia).
  rewrite substring_prefix. split; [|by exists rest].
  cbn [one_level_object]. by rewrite Hin.
Qed.

Lemma search_sound (s : string) :
  ∀ m, Re.search pattern s = Some m →
       one_level_object m = true
       ∧ ∃ before after, s = before +:+ m +:+ after.
Proof.
  induction s as [|c s IH]; intros m E.
  - cbn [Re.search] in E.
    destruct (Re.match_at pattern "") as [x|] eqn:Ex; [|done].
    injection E as ->. apply match_at_sound in Ex as [Ho [after Ha]].
    split; [done|]. by exists "", after.
  - cbn [Re.search] in E.
    destruct (Re.match_at pattern (String c s)) as [x|] eqn:Ex.
    + injection E as ->. apply match_at_sound in Ex as [Ho [after Ha]].
      split; [done|]. by exists "", after.
    + apply IH in E as [Ho (before & after & ->)]. split; [done|].
      by exists (String c before), after.
Qed.

Lemma all_chars_app (p : ascii → bool) (a b : string) :
  all_chars p (a +:+ b) = all_chars p a && all_chars p b.
Proof.
  induction a as [|c a IH]; [done|]. rewrite string_app_cons. cbn [all_chars].
  by rewrite IH, andb_assoc.
Qed.

Lemma inside_has_closing (s : string) :
  ∀ depth2, inside depth2 s = true →
            all_chars (λ c, negb (Ascii.eqb c rbrace)) s = false.
Proof.
  induction s as [|c s IH]; intros depth2; [done|]. cbn [inside all_chars].
  destruct (Ascii.eqb c lbrace).
  { destruct depth2; [done|]. intros H. by rewrite (IH _ H), andb_false_r. }
  destruct (Ascii.eqb c rbrace); [done|].
  intros H. by rewrite (IH _ H), andb_false_r.
Qed.

(** Whatever the reply, the text [re.search] hands to [json.loads] is a part
    of the reply that is an object with at most one level of nested braces:
    it starts with an opening brace, ends with the closing brace of that
    object, and no group inside it holds a brace.  So what the extraction
    returns is always the decoding of such a part. *)
Theorem search_returns_one_level_object (w : World) (content : string) :
  (∀ json_match,
     Re.search pattern content = Some json_match →
     one_level_object json_match = true
     ∧ ∃ before after, content = before +:+ json_match +:+ after)
  ∧ (∀ parsed,
       extract_json w content = Return parsed →
       ∃ before json_match after,
         content = before +:+ json_match +:+ after
         ∧ one_level_object json_match = true
         ∧ json_loads w json_match = Some parsed).
Proof.
  split; [apply search_sound|]. intros parsed. unfold extract_json.
  destruct (Re.search pattern content) as [m|] eqn:E; [|done].
  destruct (json_loads w m) as [v|] eqn:Ev; [|done]. intros [= ->].
  apply search_sound in E as [Ho (before & after & ->)]. by exists before, m, after.
Qed.

(** A reply without an opening brace, or without a closing brace (a reply
    cut off inside its first object, say), has no match: the extraction
    raises the [ValueError] of the script, and [json.loads] is not called. *)
Theorem extraction_needs_both_braces (w : World) (content : string) :
  all_chars (λ c, negb (Ascii.eqb c lbrace)) content = true
  ∨ all_chars (λ c, negb (Ascii.eqb c rbrace)) content = true →
  Re.search pattern content = None
  ∧ extract_json w content
    = Raise (ValueError "No valid JSON found in response").
Proof.
  intros H.
  assert (Re.search pattern content = None) as Hs.
  { destruct (Re.search pattern content) as [m|] eqn:E; [|done].
    apply search_sound in E as [Ho (before & after & ->)].
    rewrite !all_chars_app in H. destruct m as [|c m]; [done|].
    cbn [one_level_object] in Ho. apply andb_true_iff in Ho as [Hc Hin].
    apply inside_has_closing in Hin. cbn [all_chars] in H.
    rewrite Hc, Hin in H. cbn in H.
    rewrite !andb_false_r in H. by destruct H. }
  split; [done|]. unfold extract_json. by rewrite Hs.
Qed.

Lemma extraction_needs_both_braces_witness :
  Re.search pattern Scenes.cut_off_reply = None
  ∧ extract_json Demo.answered Scenes.cut_off_reply
    = Raise (ValueError "No valid JSON found in response").
Proof.
  apply (extraction_needs_both_braces Demo.answered Scenes.cut_off_reply).
  right. vm_compute. reflexivity.
Defined.

(** ** The names of the clips *)

Lemma string_app_inj_r (c : string) : ∀ a b, a +:+ c = b +:+ c → a = b.
Proof.
  assert (∀ a x, c ≠ String x (a +:+ c)) as Hne.
  { intros a x E. apply (f_equal String.length) in E. cbn in E.
    rewrite string_length_app in E. lia. }
  induction a as [|x a IH]; intros [|y b] E.
  - done.
  - rewrite string_app_nil_l, string_app_cons in E. by apply Hne in E.
  - rewrite string_app_nil_l, string_app_cons in E. symmetry in E.
    by apply Hne in E.
  - rewrite !string_app_cons in E. injection E as -> E. by rewrite (IH b E).
Qed.

Lemma output_name_inj (i j : nat) : output_name i = output_name j → i = j.
Proof.
  unfold output_name. intros E. apply (inj (String.append "audio_")) in E.
  apply string_app_inj_r in E. by apply (inj pretty).
Qed.

(** Two lines never share a clip file, and no clip file is one of the files
    the scripts keep: a clip cannot overwrite another clip, the
    conversation, the show notes, the episode or the marker, and removing
    the clips removes none of these. *)
Theorem clip_names_distinct :
  (∀ i j, output_name i = output_name j → i = j)
  ∧ ∀ i, output_name i
         ∉ [App.PODCAST_FILE; App.SHOW_NOTES_FILE; App.CONVERSATION_FILE;
            App.LAST_RUN_FILE; Cloudflare.PODCAST_FILE;
            Cloudflare.SHOW_NOTES_FILE; Cloudflare.CONVERSATION_FILE;
            Cloudflare.LAST_RUN_FILE].
Proof.
  split; [apply output_name_inj|]. intros i H.
  repeat (apply elem_of_cons in H as [H|H];
          [by apply clip_name_starts_with_a in H|]).
  by apply not_elem_of_nil in H.
Qed.

(** ** A dialogue that cannot be read *)





(** ** A clip that cannot be read *)

(** When the clips before some clip are there and decode, and that clip is
    missing or does not decode, the merge raises at that clip
    ([FileNotFoundError] for a missing file, the decoding error otherwise):
    nothing is exported, the episode of the day before stays as it is, and
    no file is touched. *)
Theorem merge_stops_at_unreadable_clip (w : World) (fs : files)
    (good : list string) (clips : list AudioSegment) (bad : string)
    (rest : list string) (output_file : string) :
  Forall2 (readable w fs) good clips →
  (∀ content, fs !! bad = Some content → decode w content = None) →
  merge_audio_files w (good ++ bad :: rest) output_file fs
  = (Raise (match fs !! bad with
            | None => FileNotFoundError bad
            | Some _ => CouldntDecodeError
            end), fs, []).
Proof.
  intros Hgood Hbad.
  assert (∀ combined,
            merge_loop w combined (good ++ bad :: rest) fs
            = (Raise (match fs !! bad with
                      | None => FileNotFoundError bad
                      | Some _ => CouldntDecodeError
                      end), fs, [])) as H.
  { induction Hgood as [|file clip good clips (content & Hf & Hd) _ IH];
      intros combined.
    - cbn [app merge_loop]. unfold bind at 1, from_file, bind, read_file.
      destruct (fs !! bad) as [content|] eqn:E; [|done].
      by rewrite (Hbad content eq_refl).
    - cbn [app merge_loop]. unfold bind at 1, from_file, bind, read_file.
      rewrite Hf, Hd. unfold ret. by rewrite IH. }
  unfold merge_audio_files, bind. by rewrite H.
Qed.

Lemma merge_stops_at_unreadable_clip_witness :
  let fs : files := {[ "audio_0.mp3" := "<one>"; "audio_1.mp3" := "";
                       "merged_audio.mp3" := "<yesterday>" ]} in
  merge_audio_files Demo.answered
    (["audio_0.mp3"] ++ "audio_1.mp3" :: ["audio_2.mp3"]) "merged_audio.mp3" fs
  = (Raise (match fs !! "audio_1.mp3" with
            | None => FileNotFoundError "audio_1.mp3"
            | Some _ => CouldntDecodeError
            end), fs, []).
Proof.
  apply (merge_stops_at_unreadable_clip Demo.answered
           {[ "audio_0.mp3" := "<one>"; "audio_1.mp3" := "";
              "merged_audio.mp3" := "<yesterday>" ]}
           ["audio_0.mp3"] [ {| raw_data := "<one>" |} ] "audio_1.mp3"
           ["audio_2.mp3"] "merged_audio.mp3").
  - repeat constructor. exists "<one>". split; vm_compute; reflexivity.
  - intros content H. vm_compute in H. injection H as <-. reflexivity.
Defined.

(** ** A generation that succeeds *)

Lemma synthesize_all_spoken (w : World) (spoken : list (value * value))
    (audio : list string) :
  Forall2 (spoken_as w) spoken audio →
  ∀ first,
    synthesize_all w (imap (λ i, spoken_task (first + i)) spoken) = Some audio.
Proof.
  induction 1 as [|line bytes spoken audio Hs _ IH]; intros first; [done|].
  cbn [imap synthesize_all]. unfold synthesize at 1. cbn [task_text task_voice
    spoken_task]. rewrite Hs.
  rewrite (imap_ext _ (λ i, spoken_task (S first + i))), IH; [done|].
  intros i x _. cbn. f_equal. lia.
Qed.

Lemma save_clips_run (spoken : list (value * value)) :
  ∀ (audio : list string) (first : nat) (fs : files),
    List.length spoken = List.length audio →
    let events :=
      imap (λ i bytes, WriteFile (output_name (first + i)) bytes) audio in
    save_clips (imap (λ i, spoken_task (first + i)) spoken) audio fs
    = (Return tt, replay events fs, events).
Proof.
  induction spoken as [|line spoken IH]; intros [|bytes audio] first fs Hlen;
    try done.
  cbn [imap save_clips]. unfold bind, save_to_file.
  cbn [task_output spoken_task].
  rewrite (imap_ext _ (λ i, spoken_task (S first + i)))
    by (intros i x _; cbn; f_equal; lia).
  rewrite (imap_ext (λ i bytes, WriteFile (output_name (first + S i)) bytes)
             (λ i bytes, WriteFile (output_name (S first + i)) bytes))
    by (intros i x _; cbn; do 2 f_equal; lia).
  rewrite IH by (cbn in Hlen; lia). by rewrite Nat.add_0_r.
Qed.

Lemma later_clip_writes_elsewhere (audio : list string) :
  ∀ first k,
    k < first →
    Forall (λ e, target e ≠ Some (output_name k))
      (imap (λ i bytes, WriteFile (output_name (first + i)) bytes) audio).
Proof.
  induction audio as [|bytes audio IH]; intros first k Hk; [constructor|].
  cbn [imap]. constructor.
  - cbn [target]. intros E. assert (output_name (first + 0) = output_name k)
      as E'%output_name_inj by congruence. lia.
  - rewrite (imap_ext _ (λ i b, WriteFile (output_name (S first + i)) b))
      by (intros i x _; cbn; do 2 f_equal; lia).
    apply IH. lia.
Qed.

Lemma replay_clip_writes_lookup (audio : list string) :
  ∀ first fs i bytes,
    audio !! i = Some bytes →
    replay (imap (λ j b, WriteFile (output_name (first + j)) b) audio) fs
      !! output_name (first + i)
    = Some bytes.
Proof.
  induction audio as [|b0 audio IH]; intros first fs i bytes Hi; [done|].
  cbn [imap]. rewrite replay_cons. cbn [replay_event].
  rewrite (imap_ext _ (λ j b, WriteFile (output_name (S first + j)) b))
    by (intros j x _; cbn; do 2 f_equal; lia).
  destruct i as [|i]; cbn in Hi.
  - injection Hi as ->. rewrite Nat.add_0_r.
    rewrite replay_untouched
      by (apply later_clip_writes_elsewhere; lia).
    apply lookup_insert_eq.
  - replace (first + S i) with (S first + i) by lia. by apply IH.
Qed.

Lemma clip_writes_are_clip_writes (audio : list string) :
  Forall is_clip_write (clip_writes audio).
Proof.
  unfold clip_writes.
  assert (∀ first, Forall is_clip_write
            (imap (λ i b, WriteFile (output_name (first + i)) b) audio)) as H.
  { induction audio as [|b audio IH]; intros k; [constructor|].
    cbn [imap]. constructor; [cbn; eauto|].
    rewrite (imap_ext _ (λ i b, WriteFile (output_name (S k + i)) b))
      by (intros i x _; cbn; do 2 f_equal; lia).
    apply IH. }
  exact (H 0).
Qed.

Lemma clip_removals_are_clip_removals (n : nat) :
  Forall is_clip_remove (clip_removals n).
Proof.
  unfold clip_removals. apply Forall_fmap, Forall_forall.
  intros i _. cbn. eauto.
Qed.

(** Removing clips that are there. *)
Lemma remove_clips_run (n : nat) :
  ∀ first fs,
    (∀ i, first ≤ i < first + n → is_Some (fs !! output_name i)) →
    let events := map (λ i, RemoveFile (output_name i)) (seq first n) in
    for_each os_remove (map output_name (seq first n)) fs
    = (Return tt, replay events fs, events).
Proof.
  induction n as [|n IH]; intros first fs Hthere; [done|].
  cbn [seq map for_each]. unfold bind, os_remove.
  destruct (Hthere first) as [content ->]; [lia|].
  rewrite IH; [done|]. intros i Hi. rewrite lookup_delete_ne.
  - apply Hthere. lia.
  - intros E%output_name_inj. lia.
Qed.

Lemma replay_removals_keep_absent (names : list string) (path : string) :
  ∀ fs, fs !! path = None →
        replay (map RemoveFile names) fs !! path = None.
Proof.
  induction names as [|name names IH]; intros fs H; [done|].
  cbn [map]. rewrite replay_cons. apply IH. cbn.
  destruct (decide (name = path)) as [->|Hne].
  - apply lookup_delete_eq.
  - by rewrite lookup_delete_ne.
Qed.

Lemma replay_removals_remove (names : list string) (path : string) :
  ∀ fs, path ∈ names → replay (map RemoveFile names) fs !! path = None.
Proof.
  induction names as [|name names IH]; intros fs Hin;
    [by apply not_elem_of_nil in Hin|].
  cbn [map]. rewrite replay_cons. cbn [replay_event].
  destruct (decide (name = path)) as [->|Hne].
  - apply replay_removals_keep_absent, lookup_delete_eq.
  - apply IH. apply elem_of_cons in Hin as [->|Hin]; done.
Qed.

Lemma merge_audio_files_run (w : World) (fs : files)
    (audio_files : list string) (clips : list AudioSegment)
    (output_file mp3 : string) :
  Forall2 (readable w fs) audio_files clips →
  encode w {| raw_data := track clips |} = Some mp3 →
  merge_audio_files w audio_files output_file fs
  = (Return tt, <[output_file := mp3]> fs, [WriteFile output_file mp3]).
Proof.
  intros Hclips Henc.
  pose proof (merge_loop_track w fs audio_files clips Hclips seg_empty) as Hm.
  cbn [seg_empty raw_data] in Hm. rewrite string_app_nil_l in Hm.
  unfold merge_audio_files, bind. rewrite Hm. unfold export. by rewrite Henc.
Qed.

Lemma lookup_clip_name (n i : nat) (name : string) :
  map output_name (seq 0 n) !! i = Some name → name = output_name i ∧ i < n.
Proof.
  rewrite list_lookup_fmap. intros H.
  destruct (seq 0 n !! i) as [j|] eqn:E; [|done]. injection H as <-.
  apply lookup_seq in E as [-> ?]. done.
Qed.

Lemma clip_writes_miss (audio : list string) (path : string) :
  (∀ i, i < List.length audio → path ≠ output_name i) →
  Forall (λ e, target e ≠ Some path) (clip_writes audio).
Proof.
  intros H. apply Forall_lookup_2. intros i e He.
  unfold clip_writes in He. rewrite list_lookup_imap in He.
  destruct (audio !! i) as [bytes|] eqn:E; [|done]. injection He as <-.
  cbn [target]. intros [= Ep]. apply (H i); [|done].
  by apply lookup_lt_Some in E.
Qed.

Lemma clip_removals_miss (n : nat) (path : string) :
  (∀ i, i < n → path ≠ output_name i) →
  Forall (λ e, target e ≠ Some path) (clip_removals n).
Proof.
  intros H. unfold clip_removals. apply Forall_fmap, Forall_forall.
  intros i Hi%elem_of_seq. cbn. intros [= Ep]. apply (H i); [lia|done].
Qed.

Section Completes.

Context (w : World) (p : Paths) (extract : M value).

Hypothesis apart : paths_apart p.

(** The generation up to the marker, when every stage succeeds: what it
    does, in order, and the files it leaves. *)
Lemma generation_completes (fs : files) (conversation : value)
    (lines : list value) (audio : list string) (mp3 : string)
    (requests : list event) :
  extract fs = (Return conversation, fs, requests) →
  stages_succeed w conversation lines audio mp3 →
  ∃ fs',
    generation w p extract (ret tt) fs
    = (Return tt, fs', full_cycle w p requests conversation audio mp3)
    ∧ List.length audio = List.length lines
    ∧ fs' !! conversation_file p = Some (json_dumps w conversation)
    ∧ fs' !! show_notes_file p = Some (generate_show_notes (items w))
    ∧ fs' !! podcast_file p = Some mp3
    ∧ fs' !! last_run_file p = Some (strftime_Ymd (today_at_end w))
    ∧ (∀ i, i < List.length lines → fs' !! output_name i = None)
    ∧ (∀ path,
         path ∉ [conversation_file p; show_notes_file p; podcast_file p;
                 last_run_file p] →
         (∀ i, i < List.length lines → path ≠ output_name i) →
         fs' !! path = fs !! path).
Proof.
  intros Hx (Hconv & spoken & clips & Hlines & Hspoken & Hdecode & Henc).
  destruct (paths_apart_inv p apart)
    as ((Hcn & Hcp & Hcm & Hnp & Hnm & Hpm) & Hclip).
  assert (∀ i, output_name i ≠ conversation_file p) as Hclip_c
    by (intros i; apply Hclip).
  assert (∀ i, output_name i ≠ show_notes_file p) as Hclip_n
    by (intros i; apply Hclip).
  assert (∀ i, output_name i ≠ podcast_file p) as Hclip_p
    by (intros i; apply Hclip).
  assert (∀ i, output_name i ≠ last_run_file p) as Hclip_m
    by (intros i; apply Hclip).
  clear Hclip.
  pose proof (Forall2_length _ _ _ Hlines) as Hlen1.
  pose proof (Forall2_length _ _ _ Hspoken) as Hlen2.
  pose proof (Forall2_length _ _ _ Hdecode) as Hlen3.
  assert (List.length audio = List.length lines) as Hlen by lia.
  pose proof (clip_writes_are_clip_writes audio) as Hwrites.
  pose proof (clip_removals_are_clip_removals (List.length lines)) as Hremoved.
  set (fs2 := <[show_notes_file p := generate_show_notes (items w)]>
                (<[conversation_file p := json_dumps w conversation]> fs)).
  set (fs3 := replay (clip_writes audio) fs2).
  set (fs4 := <[podcast_file p := mp3]> fs3).
  (* the clips are on disk when the merge starts *)
  assert (∀ i bytes, audio !! i = Some bytes →
                     fs3 !! output_name i = Some bytes) as Hsaved.
  { intros i bytes Hi.
    exact (replay_clip_writes_lookup audio 0 fs2 i bytes Hi). }
  assert (Forall2 (readable w fs3)
            (map output_name (seq 0 (List.length lines))) clips) as Hreadable.
  { apply Forall2_same_length_lookup. split.
    - rewrite length_map, length_seq. lia.
    - intros i name clip Hname Hclip.
      apply lookup_clip_name in Hname as [-> Hi].
      destruct (Forall2_lookup_r _ _ _ _ _ Hdecode Hclip)
        as (bytes & Hbytes & Hd).
      exists bytes. split; [by apply Hsaved|done]. }
  assert (∀ i, 0 ≤ i < 0 + List.length lines →
               is_Some (fs4 !! output_name i)) as Hthere.
  { intros i Hi. unfold fs4. rewrite lookup_insert_ne by done.
    destruct (lookup_lt_is_Some_2 audio i) as [bytes Hb]; [lia|].
    rewrite (Hsaved i bytes Hb). eauto. }
  assert (line_tasks 0 lines = Return (imap spoken_task spoken)) as Htasks
    by exact (line_tasks_spoken lines spoken Hlines 0).
  assert (synthesize_all w (imap spoken_task spoken) = Some audio) as Hsyn
    by exact (synthesize_all_spoken w spoken audio Hspoken 0).
  assert (save_clips (imap spoken_task spoken) audio fs2
          = (Return tt, fs3, clip_writes audio)) as Hsave
    by exact (save_clips_run spoken audio 0 fs2 Hlen2).
  assert (map task_output (imap spoken_task spoken)
          = map output_name (seq 0 (List.length lines))) as Hout
    by (rewrite Hlen1; exact (imap_spoken_outputs spoken 0)).
  (* the run *)
  assert (generation w p extract (ret tt) fs
          = (Return tt,
             <[last_run_file p := strftime_Ymd (today_at_end w)]>
               (replay (clip_removals (List.length lines)) fs4),
             full_cycle w p requests conversation audio mp3)) as Hrun.
  { unfold generation, full_cycle. unfold bind at 1. rewrite Hx.
    unfold bind at 1, save_to_file at 1.
    unfold bind at 1, save_to_file at 1. fold fs2.
    unfold bind at 1.
    rewrite (generate_audio_parallel_run w conversation (JArr lines) lines
               (imap spoken_task spoken) fs2 Hconv eq_refl Htasks).
    unfold gather. rewrite Hsyn, Hsave, Hout.
    unfold bind at 1.
    rewrite (merge_audio_files_run w fs3 _ clips (podcast_file p) mp3
               Hreadable Henc). fold fs4.
    unfold bind at 1.
    rewrite (remove_clips_run (List.length lines) 0 fs4 Hthere).
    fold (clip_removals (List.length lines)). rewrite Hlen.
    unfold bind, save_to_file, ret. cbn [app]. reflexivity. }
  eexists. split; [exact Hrun|]. split; [exact Hlen|].
  assert (∀ path,
            <[last_run_file p := strftime_Ymd (today_at_end w)]>
              (replay (clip_removals (List.length lines)) fs4) !! path
            = replay
                ([WriteFile (conversation_file p) (json_dumps w conversation);
                  WriteFile (show_notes_file p)
                    (generate_show_notes (items w))]
                   ++ clip_writes audio
                   ++ [WriteFile (podcast_file p) mp3]
                   ++ clip_removals (List.length lines)
                   ++ [WriteFile (last_run_file p)
                         (strftime_Ymd (today_at_end w))]) fs !! path) as Hfs.
  { intros path. by rewrite !replay_app. }
  repeat split.
  1-4: rewrite Hfs, !replay_app, !replay_cons, !replay_nil;
       cbn [replay_event]; lookup_replayed.
  - intros i Hi. rewrite lookup_insert_ne by done.
    unfold clip_removals.
    rewrite <- (map_map output_name RemoveFile (seq 0 (List.length lines))).
    apply replay_removals_remove, list_elem_of_fmap.
    exists i. split; [done|]. apply elem_of_seq. lia.
  - intros path Hpath Hnot.
    repeat rewrite not_elem_of_cons in Hpath.
    destruct Hpath as (? & ? & ? & ? & _).
    rewrite lookup_insert_ne by done.
    rewrite replay_untouched by (by apply clip_removals_miss).
    unfold fs4. rewrite lookup_insert_ne by done.
    unfold fs3.
    rewrite replay_untouched
      by (apply clip_writes_miss; intros i Hi; apply Hnot; lia).
    unfold fs2. by rewrite !lookup_insert_ne by done.
Qed.

End Completes.

(** When the marker is not of today, the conversation is extracted, every
    line has a speaker and a text, the speech service answers for every
    line, every clip decodes and the encoder accepts the track, then
    [generate_podcast] returns and has done exactly this, in this order: the
    requests, the conversation, the show notes, one clip per line, the
    episode, the removal of every clip, the marker.  The episode is the
    encoding of the clips in the order of the dialogue, the clips of the
    lines are gone, and every other file is as it was, a clip of an earlier
    run with a number beyond the lines included.  An empty dialogue gives an
    episode of the empty track. *)
Theorem generate_podcast_completes (w : World) (fs : files)
    (conversation : value) (lines : list value)
    (spoken : list (value * value)) (audio : list string)
    (clips : list AudioSegment) (mp3 : string) (requests : list event) :
  fresh w App.LAST_RUN_FILE fs = false →
  App.extract_conversation w (daily_feed w) (items w) App.default_max_retries fs
  = (Return conversation, fs, requests) →
  subscript conversation "conversation" = Return (JArr lines) →
  Forall2 has_fields lines spoken →
  Forall2 (spoken_as w) spoken audio →
  Forall2 (λ bytes clip, decode w bytes = Some clip) audio clips →
  encode w {| raw_data := track clips |} = Some mp3 →
  ∃ fs',
    App.generate_podcast w fs
    = (Return tt, fs',
       requests
         ++ [WriteFile App.CONVERSATION_FILE (json_dumps w conversation);
             WriteFile App.SHOW_NOTES_FILE (generate_show_notes (items w))]
         ++ clip_writes audio
         ++ [WriteFile App.PODCAST_FILE mp3]
         ++ clip_removals (List.length lines)
         ++ [WriteFile App.LAST_RUN_FILE (strftime_Ymd (today_at_end w))])
    ∧ fs' !! App.CONVERSATION_FILE = Some (json_dumps w conversation)
    ∧ fs' !! App.SHOW_NOTES_FILE = Some (generate_show_notes (items w))
    ∧ fs' !! App.PODCAST_FILE = Some mp3
    ∧ fs' !! App.LAST_RUN_FILE = Some (strftime_Ymd (today_at_end w))
    ∧ (∀ i, i < List.length lines → fs' !! output_name i = None)
    ∧ (∀ path,
         path ∉ [App.CONVERSATION_FILE; App.SHOW_NOTES_FILE;
                 App.PODCAST_FILE; App.LAST_RUN_FILE] →
         (∀ i, i < List.length lines → path ≠ output_name i) →
         fs' !! path = fs !! path).
Proof.
  intros Hstale Hx Hconv Hlines Hspoken Hdecode Henc.
  destruct (generation_completes w App.paths _ app_paths_apart fs conversation
              lines audio mp3 requests Hx)
    as (fs' & Hrun & Hlen & Hc & Hn & Hp & Hm & Hgone & Hother).
  { split; [done|]. by exists spoken, clips. }
  exists fs'. split.
  - unfold App.generate_podcast. rewrite daily_cycle_stale by done.
    rewrite Hrun. unfold full_cycle. by rewrite Hlen.
  - by repeat split.
Qed.

Lemma generate_podcast_completes_witness :
  let w := Demo.answered in
  let fs := <["audio_7.mp3" := "<a clip of an earlier run>"]> Demo.yesterday in
  let audio := ["<en-GB-RyanNeural|Welcome back.>";
                "<en-US-AvaMultilingualNeural|Two papers today.>"] in
  let mp3 := "<en-GB-RyanNeural|Welcome back.>"
               +:+ "<en-US-AvaMultilingualNeural|Two papers today.>" in
  ∃ fs',
    App.generate_podcast w fs
    = (Return tt, fs',
       [Completion 1 (build_prompt (daily_feed w) (items w))]
         ++ [WriteFile App.CONVERSATION_FILE (json_dumps w Demo.parsed_reply);
             WriteFile App.SHOW_NOTES_FILE (generate_show_notes (items w))]
         ++ clip_writes audio
         ++ [WriteFile App.PODCAST_FILE mp3]
         ++ clip_removals
              (List.length [Demo.spoken "Brian" "Welcome back.";
                            Demo.spoken "Jenny" "Two papers today."])
         ++ [WriteFile App.LAST_RUN_FILE (strftime_Ymd (today_at_end w))])
    ∧ fs' !! App.CONVERSATION_FILE = Some (json_dumps w Demo.parsed_reply)
    ∧ fs' !! App.SHOW_NOTES_FILE = Some (generate_show_notes (items w))
    ∧ fs' !! App.PODCAST_FILE = Some mp3
    ∧ fs' !! App.LAST_RUN_FILE = Some (strftime_Ymd (today_at_end w))
    ∧ (∀ i, i < List.length [Demo.spoken "Brian" "Welcome back.";
                             Demo.spoken "Jenny" "Two papers today."] →
            fs' !! output_name i = None)
    ∧ (∀ path,
         path ∉ [App.CONVERSATION_FILE; App.SHOW_NOTES_FILE;
                 App.PODCAST_FILE; App.LAST_RUN_FILE] →
         (∀ i, i < List.length [Demo.spoken "Brian" "Welcome back.";
                                Demo.spoken "Jenny" "Two papers today."] →
               path ≠ output_name i) →
         fs' !! path = fs !! path).
Proof.
  cbv zeta.
  apply (generate_podcast_completes Demo.answered
           (<["audio_7.mp3" := "<a clip of an earlier run>"]> Demo.yesterday)
           Demo.parsed_reply
           [Demo.spoken "Brian" "Welcome back.";
            Demo.spoken "Jenny" "Two papers today."]
           [(JStr "Brian", JStr "Welcome back.");
            (JStr "Jenny", JStr "Two papers today.")]
           ["<en-GB-RyanNeural|Welcome back.>";
            "<en-US-AvaMultilingualNeural|Two papers today.>"]
           [ {| raw_data := "<en-GB-RyanNeural|Welcome back.>" |};
             {| raw_data := "<en-US-AvaMultilingualNeural|Two papers today.>" |} ]
           ("<en-GB-RyanNeural|Welcome back.>"
              +:+ "<en-US-AvaMultilingualNeural|Two papers today.>")
           [Completion 1 (build_prompt (daily_feed Demo.answered)
                            (items Demo.answered))]).
  - vm_compute. reflexivity.
  - vm_compute. reflexivity.
  - reflexivity.
  - repeat constructor.
  - repeat constructor.
  - repeat constructor.
  - vm_compute. reflexivity.
Defined.

(** ** The uploads of [cloudflare_app.py] *)

Lemma bind_assoc {A B C} (m : M A) (k : A → M B) (h : B → M C) (fs : files) :
  bind (bind m k) h fs = bind m (λ a, bind (k a) h) fs.
Proof.
  unfold bind. destruct (m fs) as [[[a|e] fs1] l1]; [|done].
  destruct (k a fs1) as [[[b|e] fs2] l2]; [|done].
  destruct (h b fs2) as [[r fs3] l3]. by rewrite app_assoc.
Qed.

Lemma bind_ext {A B} (m : M A) (k1 k2 : A → M B) (fs : files) :
  (∀ a fs1, k1 a fs1 = k2 a fs1) → bind m k1 fs = bind m k2 fs.
Proof.
  intros H. unfold bind. destruct (m fs) as [[[a|e] fs1] l1]; [|done].
  by rewrite H.
Qed.

Lemma bind_ret_l {A B} (a : A) (k : A → M B) (fs : files) :
  bind (ret a) k fs = k a fs.
Proof. unfold bind, ret. by destruct (k a fs) as [[r fs1] l1]. Qed.

(** A generation is what comes before the publication, then the
    publication. *)
Lemma generation_split (w : World) (p : Paths) (extract : M value)
    (publish : M unit) (fs : files) :
  generation w p extract publish fs
  = bind (generation w p extract (ret tt)) (λ _, publish) fs.
Proof.
  unfold generation.
  repeat (rewrite bind_assoc; apply bind_ext; intros ? ?).
  by rewrite bind_ret_l.
Qed.






Lemma replay_uploads (events : list event) (fs : files) :
  Forall is_upload events → replay events fs = fs.
Proof.
  induction 1 as [|e events He _ IH]; [done|].
  rewrite replay_cons. by destruct e.
Qed.


Lemma uploads_run (w : World) (fs : files) (r : outcome unit) (fs' : files)
    (events : list event) :
  Cloudflare.uploads w fs = (r, fs', events) →
  fs' = fs
  ∧ ∃ k : nat, (1 ≤ k ≤ 3)%nat ∧ events = take k (all_uploads w)
         ∧ (r = Return tt ∧ k = 3 ∨ r = Raise UploadError)
         ∧ (r = Return tt ↔
            upload_ok w Cloudflare.PODCAST_FILE
            && upload_ok w Cloudflare.SHOW_NOTES_FILE
            && upload_ok w Cloudflare.CONVERSATION_FILE = true).
Proof.
  unfold Cloudflare.uploads, Cloudflare.upload_to_r2, bind, emit, ret, raise.
  destruct (upload_ok w Cloudflare.PODCAST_FILE);
    [destruct (upload_ok w Cloudflare.SHOW_NOTES_FILE);
     [destruct (upload_ok w Cloudflare.CONVERSATION_FILE)|]|];
    intros [= <- <- <-]; (split; [done|]).
  - exists 3. repeat split; auto; lia.
  - exists 3. repeat split; auto; try lia; done.
  - exists 2. repeat split; auto; try lia; done.
  - exists 1. repeat split; auto; try lia; done.
Qed.



(** ** C6 *)

(** C6.  In both scripts: when the marker, stripped, is the date of the day,
    the invocation returns at once, with no effect and the files as they
    were.  Otherwise the generation is run, starting with the first request,
    and is one of the two runs of [cycle_run]: stopped by an exception, the
    marker neither written nor changed; or complete, the marker written
    once, with the date of the day, after the conversation, the show notes
    and the episode.  When the conversation is extracted and every later
    stage succeeds, the run is the complete one and nothing else: in
    [app.py] it returns after exactly the effects of [full_cycle], which end
    with the marker; in [cloudflare_app.py] the same effects are followed by
    the uploads, up to the first that fails, and the run returns exactly
    when the three succeed.  Either way the marker is then of the day, and
    an invocation later that day returns at once with no effect: two
    invocations on one day generate once. *)
Theorem daily_gate (w w2 : World) (fs : files) :
  today_at_gate w2 = today_at_end w →
  let prompt := build_prompt (daily_feed w) (items w) in
  (if fresh w App.LAST_RUN_FILE fs
   then App.generate_podcast w fs = (Return tt, fs, [])
   else ∃ r fs' rest,
       App.generate_podcast w fs = (r, fs', Completion 1 prompt :: rest)
       ∧ cycle_run w App.paths fs r fs' (Completion 1 prompt :: rest)
       ∧ (r = Return tt →
          App.generate_podcast w2 fs' = (Return tt, fs', []))
       ∧ (∀ conversation lines audio mp3 requests,
            App.extract_conversation w (daily_feed w) (items w)
              App.default_max_retries fs
            = (Return conversation, fs, requests) →
            stages_succeed w conversation lines audio mp3 →
            r = Return tt
            ∧ Completion 1 prompt :: rest
              = full_cycle w App.paths requests conversation audio mp3
            ∧ fs' !! App.CONVERSATION_FILE = Some (json_dumps w conversation)
            ∧ fs' !! App.SHOW_NOTES_FILE
              = Some (generate_show_notes (items w))
            ∧ fs' !! App.PODCAST_FILE = Some mp3
            ∧ fs' !! App.LAST_RUN_FILE
              = Some (strftime_Ymd (today_at_end w))
            ∧ App.generate_podcast w2 fs' = (Return tt, fs', [])))
  ∧ (if fresh w Cloudflare.LAST_RUN_FILE fs
     then Cloudflare.run_podcast_generation w fs = (Return tt, fs, [])
     else ∃ r fs' rest,
         Cloudflare.run_podcast_generation w fs
         = (r, fs', Completion 1 prompt :: rest)
         ∧ cycle_run w Cloudflare.paths fs r fs' (Completion 1 prompt :: rest)
         ∧ (r = Return tt →
            Cloudflare.run_podcast_generation w2 fs' = (Return tt, fs', []))
         ∧ (∀ conversation lines audio mp3 requests,
              Cloudflare.extract_conversation w (daily_feed w) (items w) fs
              = (Return conversation, fs, requests) →
              stages_succeed w conversation lines audio mp3 →
              (∃ k : nat,
                 (1 ≤ k ≤ 3)%nat
                 ∧ Completion 1 prompt :: rest
                   = full_cycle w Cloudflare.paths requests conversation
                       audio mp3
                       ++ take k (all_uploads w)
                 ∧ (r = Return tt ∧ k = 3%nat ∨ r = Raise UploadError))
              ∧ (r = Return tt ↔
                 upload_ok w Cloudflare.PODCAST_FILE
                 && upload_ok w Cloudflare.SHOW_NOTES_FILE
                 && upload_ok w Cloudflare.CONVERSATION_FILE = true)
              ∧ fs' !! Cloudflare.CONVERSATION_FILE
                = Some (json_dumps w conversation)
              ∧ fs' !! Cloudflare.SHOW_NOTES_FILE
                = Some (generate_show_notes (items w))
              ∧ fs' !! Cloudflare.PODCAST_FILE = Some mp3
              ∧ fs' !! Cloudflare.LAST_RUN_FILE
                = Some (strftime_Ymd (today_at_end w))
              ∧ Cloudflare.run_podcast_generation w2 fs'
                = (Return tt, fs', []))).
Proof.
  intros Hday prompt. split.
  - pose proof (daily_cycle_gate w App.paths
                  (App.extract_conversation w (daily_feed w) (items w)
                     App.default_max_retries)
                  (ret tt) app_paths_apart
                  (within_app_extract_conversation w _ _ _)
                  (within_ret is_upload tt) ret_outcome w2 fs Hday) as H.
    fold (App.generate_podcast w) in H. cbn [last_run_file App.paths] in H.
    destruct (fresh w App.LAST_RUN_FILE fs) eqn:Hstale; [exact H|].
    destruct H as (r & fs' & events & E & Hrun & Hx & Hnext).
    destruct Hx as (rx & fsx & requests & more & Ex & ->).
    destruct (app_extract_first w (daily_feed w) (items w) fs)
      as (rx' & fsx' & rest & Ex').
    rewrite Ex' in Ex. injection Ex as -> -> <-.
    exists r, fs', (rest ++ more). split; [exact E|]. split; [exact Hrun|].
    split.
    { intros Hr. unfold App.generate_podcast. apply daily_cycle_fresh. auto. }
    intros conversation lines audio mp3 requests Hextract Hok.
    destruct (generation_completes w App.paths _ app_paths_apart fs
                conversation lines audio mp3 requests Hextract Hok)
      as (fs5 & Hgen & _ & Hc & Hn & Hp & Hm & _).
    unfold App.generate_podcast in E. rewrite daily_cycle_stale in E by done.
    rewrite Hgen in E. injection E as <- <- Hev.
    split; [done|]. split; [done|]. split; [exact Hc|]. split; [exact Hn|].
    split; [exact Hp|]. split; [exact Hm|].
    unfold App.generate_podcast. apply daily_cycle_fresh. auto.
  - pose proof (daily_cycle_gate w Cloudflare.paths
                  (Cloudflare.extract_conversation w (daily_feed w) (items w))
                  (Cloudflare.uploads w) cloudflare_paths_apart
                  (within_cloudflare_extract_conversation w _ _)
                  (within_uploads w) (uploads_outcome w) w2 fs Hday) as H.
    fold (Cloudflare.run_podcast_generation w) in H.
    cbn [last_run_file Cloudflare.paths] in H.
    destruct (fresh w Cloudflare.LAST_RUN_FILE fs) eqn:Hstale; [exact H|].
    destruct H as (r & fs' & events & E & Hrun & Hx & Hnext).
    destruct Hx as (rx & fsx & requests & more & Ex & ->).
    destruct (cloudflare_extract_first w (daily_feed w) (items w) fs)
      as (rx' & fsx' & rest & Ex').
    rewrite Ex' in Ex. injection Ex as -> -> <-.
    exists r, fs', (rest ++ more). split; [exact E|]. split; [exact Hrun|].
    split.
    { intros Hr. unfold Cloudflare.run_podcast_generation.
      apply daily_cycle_fresh. auto. }
    intros conversation lines audio mp3 requests Hextract Hok.
    destruct (generation_completes w Cloudflare.paths _ cloudflare_paths_apart
                fs conversation lines audio mp3 requests Hextract Hok)
      as (fs5 & Hgen & _ & Hc & Hn & Hp & Hm & _).
    unfold Cloudflare.run_podcast_generation in E.
    rewrite daily_cycle_stale, generation_split in E by done.
    unfold bind at 1 in E. rewrite Hgen in E.
    destruct (Cloudflare.uploads w fs5) as [[ru fsu] published] eqn:Eu.
    injection E as <- <- Hev.
    destruct (uploads_run _ _ _ _ _ Eu) as (-> & k & Hk & -> & Hr & Hall).
    split; [by exists k|]. split; [exact Hall|].
    split; [exact Hc|]. split; [exact Hn|]. split; [exact Hp|].
    split; [exact Hm|].
    unfold Cloudflare.run_podcast_generation. apply daily_cycle_fresh.
    unfold fresh. cbn [last_run_file Cloudflare.paths] in *.
    rewrite Hm, strip_strftime, Hday. apply String.eqb_refl.
Qed.

Lemma daily_gate_witness :
  let w := Demo.answered in
  let fs := Demo.yesterday in
  let requests := [Completion 1 (build_prompt (daily_feed w) (items w))] in
  let audio := ["<en-GB-RyanNeural|Welcome back.>";
                "<en-US-AvaMultilingualNeural|Two papers today.>"] in
  let mp3 := "<en-GB-RyanNeural|Welcome back.>"
               +:+ "<en-US-AvaMultilingualNeural|Two papers today.>" in
  (∃ fs',
     App.generate_podcast w fs
     = (Return tt, fs',
        full_cycle w App.paths requests Demo.parsed_reply audio mp3)
     ∧ fs' !! App.LAST_RUN_FILE = Some "2026-11-03"
     ∧ App.generate_podcast w fs' = (Return tt, fs', []))
  ∧ (∃ fs',
       Cloudflare.run_podcast_generation w fs
       = (Return tt, fs',
          full_cycle w Cloudflare.paths requests Demo.parsed_reply audio mp3
            ++ all_uploads w)
       ∧ fs' !! Cloudflare.LAST_RUN_FILE = Some "2026-11-03"
       ∧ Cloudflare.run_podcast_generation w fs' = (Return tt, fs', [])).
Proof.
  cbv zeta.
  assert (stages_succeed Demo.answered Demo.parsed_reply
            [Demo.spoken "Brian" "Welcome back.";
             Demo.spoken "Jenny" "Two papers today."]
            ["<en-GB-RyanNeural|Welcome back.>";
             "<en-US-AvaMultilingualNeural|Two papers today.>"]
            ("<en-GB-RyanNeural|Welcome back.>"
               +:+ "<en-US-AvaMultilingualNeural|Two papers today.>")) as Hok.
  { split; [reflexivity|].
    exists [(JStr "Brian", JStr "Welcome back.");
            (JStr "Jenny", JStr "Two papers today.")],
      [ {| raw_data := "<en-GB-RyanNeural|Welcome back.>" |};
        {| raw_data := "<en-US-AvaMultilingualNeural|Two papers today.>" |} ].
    split; [repeat constructor|]. split; [repeat constructor|].
    split; [repeat constructor|]. vm_compute. reflexivity. }
  destruct (daily_gate Demo.answered Demo.answered Demo.yesterday eq_refl)
    as [Happ Hcloudflare].
  assert (fresh Demo.answered "last_run.txt" Demo.yesterday = false) as Hstale
    by (vm_compute; reflexivity).
  change App.LAST_RUN_FILE with "last_run.txt" in Happ.
  change Cloudflare.LAST_RUN_FILE with "last_run.txt" in Hcloudflare.
  rewrite Hstale in Happ, Hcloudflare.
  destruct Happ as (r & fs' & rest & E & _ & _ & Hfull).
  destruct Hcloudflare as (r2 & fs2 & rest2 & E2 & _ & _ & Hfull2).
  split.
  - destruct (Hfull Demo.parsed_reply _ _ _
                [Completion 1 (build_prompt (daily_feed Demo.answered)
                                 (items Demo.answered))]
                ltac:(vm_compute; reflexivity) Hok)
      as (-> & Hev & _ & _ & _ & Hm & Hnext).
    exists fs'. rewrite E, Hev. by repeat split.
  - destruct (Hfull2 Demo.parsed_reply _ _ _
                [Completion 1 (build_prompt (daily_feed Demo.answered)
                                 (items Demo.answered))]
                ltac:(vm_compute; reflexivity) Hok)
      as ((k & Hk & Hev & Hr) & Hall & _ & _ & _ & Hm & Hnext).
    assert (r2 = Return tt) as -> by (apply Hall; reflexivity).
    destruct Hr as [[_ ->] | Hr]; [|done].
    exists fs2. rewrite E2, Hev. by repeat split.
Defined.

(** ** The page of [app.py] *)

Lemma subscript_truthy (float_nonzero : string → bool) (v : value)
    (key : string) (x : value) :
  subscript v key = Return x → Page.truthy float_nonzero v = true.
Proof.
  destruct v as [| | | | |elements|fields]; try done.
  by destruct fields.
Qed.

Lemma message_line_fields (py_str : value → string) (msg : value)
    (line : value * value) :
  has_fields msg line →
  Page.message_line py_str msg
  = Return ("**" +:+ Page.formatted py_str (fst line) +:+ "**: "
              +:+ Page.formatted py_str (snd line)).
Proof. intros [Hs Ht]. unfold Page.message_line. by rewrite Hs, Ht. Qed.

Lemma write_messages_app (py_str : value → string) (good : list value)
    (fields : list (value * value)) (rest : list value) :
  Forall2 has_fields good fields →
  Page.write_messages py_str (good ++ rest)
  = ((Page.write_messages py_str rest).1,
     map (Page.spoken_line py_str) fields
       ++ (Page.write_messages py_str rest).2).
Proof.
  induction 1 as [|msg line good fields Hmsg _ IH].
  - cbn [app map]. by destruct (Page.write_messages py_str rest).
  - cbn [app Page.write_messages map].
    rewrite (message_line_fields _ _ _ Hmsg), IH. reflexivity.
Qed.

Lemma page_of_conversation (w : World) (py_str : value → string)
    (float_nonzero : string → bool) (fs : files) (content : string)
    (conversation dialogue : value) (msgs : list value) :
  fs !! App.CONVERSATION_FILE = Some content →
  json_loads w (Page.universal_newlines content) = Some conversation →
  subscript conversation "conversation" = Return dialogue →
  iterate dialogue = Return msgs →
  Page.page w py_str float_nonzero fs
  = ((Page.write_messages py_str msgs).1,
     Page.left_column fs
       ++ [Page.Subheader "🗨️ Podcast Conversation"]
       ++ (Page.write_messages py_str msgs).2).
Proof.
  intros Hc Hload Hd Hi.
  unfold Page.page, Page.load_conversation, Page.conversation_column.
  rewrite Hc, Hload, (subscript_truthy _ _ _ _ Hd), Hd, Hi.
  by destruct (Page.write_messages py_str msgs).
Qed.

(** Once an episode has been generated, the page shows it: the player with
    the bytes of the episode, the show notes as read in text mode, and under
    the third header one line per line of the dialogue, in the order of the
    dialogue, each [**speaker**: text].  It needs the JSON that was written
    to read back as the conversation. *)
Theorem page_shows_generated_episode (w : World) (py_str : value → string)
    (float_nonzero : string → bool) (fs : files)
    (conversation dialogue : value) (lines : list value)
    (fields : list (value * value)) (notes mp3 : string) :
  fs !! App.CONVERSATION_FILE = Some (json_dumps w conversation) →
  fs !! App.SHOW_NOTES_FILE = Some notes →
  fs !! App.PODCAST_FILE = Some mp3 →
  json_loads w (Page.universal_newlines (json_dumps w conversation))
  = Some conversation →
  subscript conversation "conversation" = Return dialogue →
  iterate dialogue = Return lines →
  Forall2 has_fields lines fields →
  Page.page w py_str float_nonzero fs
  = (Return tt,
     [Page.Subheader "🎧 Listen to the Podcast"; Page.Audio mp3;
      Page.Subheader "📜 Show Notes";
      Page.Markdown (Page.universal_newlines notes);
      Page.Subheader "🗨️ Podcast Conversation"]
       ++ map (Page.spoken_line py_str) fields).
Proof.
  intros Hc Hn Hp Hload Hd Hi Hlines.
  rewrite (page_of_conversation _ _ _ _ _ _ _ _ Hc Hload Hd Hi).
  rewrite <- (app_nil_r lines), (write_messages_app _ _ _ _ Hlines).
  unfold Page.left_column, Page.player, Page.show_notes.
  rewrite Hn, Hp. cbn [Page.write_messages fst snd app].
  by rewrite app_nil_r.
Qed.

Lemma page_shows_generated_episode_witness :
  let w := Demo.answered in
  let fs := (App.generate_podcast w Demo.yesterday).1.2 in
  Page.page w Scenes.str_of Scenes.nonzero fs
  = (Return tt,
     [Page.Subheader "🎧 Listen to the Podcast";
      Page.Audio ("<en-GB-RyanNeural|Welcome back.>"
                    +:+ "<en-US-AvaMultilingualNeural|Two papers today.>");
      Page.Subheader "📜 Show Notes";
      Page.Markdown (Page.universal_newlines (generate_show_notes (items w)));
      Page.Subheader "🗨️ Podcast Conversation"]
       ++ map (Page.spoken_line Scenes.str_of)
            [(JStr "Brian", JStr "Welcome back.");
             (JStr "Jenny", JStr "Two papers today.")]).
Proof.
  cbv zeta.
  apply (page_shows_generated_episode Demo.answered Scenes.str_of
           Scenes.nonzero _ Demo.parsed_reply
           (JArr [Demo.spoken "Brian" "Welcome back.";
                  Demo.spoken "Jenny" "Two papers today."])
           [Demo.spoken "Brian" "Welcome back.";
            Demo.spoken "Jenny" "Two papers today."]).
  - vm_compute. reflexivity.
  - vm_compute. reflexivity.
  - vm_compute. reflexivity.
  - vm_compute. reflexivity.
  - reflexivity.
  - reflexivity.
  - repeat constructor.
Defined.

(** The page stops at the first line of the dialogue that has no speaker or
    no text: the lines before it are written, in order, then the exception
    of the missing field ends the script; the lines after it are not
    shown. *)
Theorem page_stops_at_unreadable_line (w : World) (py_str : value → string)
    (float_nonzero : string → bool) (fs : files) (content : string)
    (conversation dialogue : value) (good : list value) (bad : value)
    (rest : list value) (fields : list (value * value)) (e : exn) :
  fs !! App.CONVERSATION_FILE = Some content →
  json_loads w (Page.universal_newlines content) = Some conversation →
  subscript conversation "conversation" = Return dialogue →
  iterate dialogue = Return (good ++ bad :: rest) →
  Forall2 has_fields good fields →
  subscript bad "speaker" = Raise e
  ∨ (∃ speaker, subscript bad "speaker" = Return speaker
                ∧ subscript bad "text" = Raise e) →
  Page.page w py_str float_nonzero fs
  = (Raise e,
     Page.left_column fs
       ++ [Page.Subheader "🗨️ Podcast Conversation"]
       ++ map (Page.spoken_line py_str) fields).
Proof.
  intros Hc Hload Hd Hi Hgood Hbad.
  rewrite (page_of_conversation _ _ _ _ _ _ _ _ Hc Hload Hd Hi).
  rewrite (write_messages_app _ _ _ _ Hgood).
  assert (Page.message_line py_str bad = Raise e) as Hline.
  { unfold Page.message_line.
    destruct Hbad as [-> | (speaker & -> & ->)]; reflexivity. }
  cbn [Page.write_messages]. rewrite Hline. cbn [fst snd].
  by rewrite app_nil_r.
Qed.

Lemma page_stops_at_unreadable_line_witness :
  let w := Demo.answered in
  let fs := Scenes.after_missing_text in
  Page.page w Scenes.str_of Scenes.nonzero fs
  = (Raise (KeyError "text"),
     Page.left_column fs
       ++ [Page.Subheader "🗨️ Podcast Conversation"]
       ++ map (Page.spoken_line Scenes.str_of)
            [(JStr "Brian", JStr "Welcome back.")]).
Proof.
  cbv zeta.
  apply (page_stops_at_unreadable_line Demo.answered Scenes.str_of
           Scenes.nonzero Scenes.after_missing_text
           (json_dumps Demo.answered Scenes.missing_text)
           Scenes.missing_text
           (JArr [Demo.spoken "Brian" "Welcome back.";
                  JObj [("speaker", JStr "Jenny")]])
           [Demo.spoken "Brian" "Welcome back."]
           (JObj [("speaker", JStr "Jenny")]) []).
  - vm_compute. reflexivity.
  - vm_compute. reflexivity.
  - reflexivity.
  - reflexivity.
  - repeat constructor.
  - right. exists (JStr "Jenny"). split; reflexivity.
Defined.

(** Without a conversation the page still renders: when the conversation
    file is absent, or holds a JSON value that counts as false (null, an
    empty object, an empty list), the right column shows the warning in
    place of the dialogue, and the script is not stopped. *)
Theorem page_without_conversation (w : World) (py_str : value → string)
    (float_nonzero : string → bool) (fs : files) :
  fs !! App.CONVERSATION_FILE = None
  ∨ (∃ content data,
       fs !! App.CONVERSATION_FILE = Some content
       ∧ json_loads w (Page.universal_newlines content) = Some data
       ∧ Page.truthy float_nonzero data = false) →
  Page.page w py_str float_nonzero fs
  = (Return tt,
     Page.left_column fs
       ++ [Page.Subheader "🗨️ Podcast Conversation";
           Page.Warning "No conversation data available."]).
Proof.
  unfold Page.page, Page.load_conversation, Page.conversation_column.
  intros [-> | (content & data & -> & -> & ->)]; reflexivity.
Qed.

Lemma page_without_conversation_witness :
  let fs := Demo.yesterday in
  Page.page Demo.answered Scenes.str_of Scenes.nonzero fs
  = (Return tt,
     Page.left_column fs
       ++ [Page.Subheader "🗨️ Podcast Conversation";
           Page.Warning "No conversation data available."]).
Proof.
  cbv zeta.
  apply (page_without_conversation Demo.answered Scenes.str_of
           Scenes.nonzero Demo.yesterday).
  right. exists "{}", (JObj []). repeat split; vm_compute; reflexivity.
Defined.

(** ** White space around the date of the marker *)

Lemma rev_app_append (a b : string) :
  String.rev_app a b = String.rev a +:+ b.
Proof.
  unfold String.rev. revert b.
  induction a as [|c a IH]; intros b; [done|].
  cbn [String.rev_app]. rewrite (IH (String c b)), (IH (String c "")).
  by rewrite string_app_assoc.
Qed.

Lemma rev_append (a b : string) :
  String.rev (a +:+ b) = String.rev b +:+ String.rev a.
Proof.
  induction a as [|c a IH].
  - by rewrite string_app_nil_l, string_app_nil_r.
  - rewrite string_app_cons. unfold String.rev at 1 3.
    cbn [String.rev_app]. rewrite !rev_app_append, IH.
    by rewrite string_app_assoc.
Qed.

Lemma rev_rev (s : string) : String.rev (String.rev s) = s.
Proof.
  induction s as [|c s IH]; [done|].
  unfold String.rev at 2. cbn [String.rev_app].
  by rewrite rev_app_append, rev_append, IH.
Qed.

Lemma foldr_append_app (l1 l2 : list string) (s : string) :
  foldr String.append s (l1 ++ l2)
  = foldr String.append "" l1 +:+ foldr String.append s l2.
Proof.
  induction l1 as [|a l1 IH]; cbn [foldr app].
  - by rewrite string_app_nil_l.
  - by rewrite IH, string_app_assoc.
Qed.

Lemma rev_foldr_append (l : list string) :
  String.rev (foldr String.append "" l)
  = foldr String.append "" (map String.rev (reverse l)).
Proof.
  induction l as [|a l IH]; [done|].
  cbn [foldr]. rewrite rev_append, IH, reverse_cons, map_app.
  rewrite foldr_append_app. cbn [map foldr].
  by rewrite string_app_nil_r.
Qed.

Lemma foldr_append_end (l : list string) (s : string) :
  foldr String.append s l = foldr String.append "" l +:+ s.
Proof.
  rewrite <- (app_nil_r l) at 1. by rewrite foldr_append_app.
Qed.

Ltac whitespace_cases H :=
  apply list_elem_of_In in H; vm_compute in H;
  repeat (destruct H as [<-|H]; [reflexivity|]); destruct H.

Lemma drop_one_whitespace (s rest : string) :
  s ∈ whitespace → drop_one whitespace (s +:+ rest) = Some rest.
Proof. intros H. whitespace_cases H. Qed.

Lemma drop_one_whitespace_rev (s rest : string) :
  s ∈ map String.rev whitespace →
  drop_one (map String.rev whitespace) (s +:+ rest) = Some rest.
Proof. intros H. whitespace_cases H. Qed.

Lemma whitespace_length (s : string) :
  s ∈ whitespace → (1 ≤ String.length s)%nat.
Proof.
  intros H. apply list_elem_of_In in H. vm_compute in H.
  repeat (destruct H as [<-|H]; [cbn; lia|]). destruct H.
Qed.

Lemma drop_one_digit (c : ascii) (rest : string) :
  is_digit c = true → drop_one whitespace (String c rest) = None.
Proof. intros H. digit_cases H; reflexivity. Qed.

Lemma drop_one_digit_rev (c : ascii) (rest : string) :
  is_digit c = true →
  drop_one (map String.rev whitespace) (String c rest) = None.
Proof. intros H. digit_cases H; reflexivity. Qed.

Lemma drop_leading_padding (seqs ws : list string) (core : string)
    (fuel : nat) :
  (∀ s rest, s ∈ seqs → drop_one seqs (s +:+ rest) = Some rest) →
  Forall (λ s, s ∈ seqs) ws →
  drop_one seqs core = None →
  (List.length ws ≤ fuel)%nat →
  drop_leading seqs fuel (foldr String.append core ws) = core.
Proof.
  intros Hdrop Hws Hcore. revert fuel.
  induction Hws as [|s ws Hs _ IH]; intros fuel Hfuel.
  - cbn [foldr]. destruct fuel; [done|]. cbn [drop_leading]. by rewrite Hcore.
  - destruct fuel as [|fuel]; [cbn in Hfuel; lia|].
    cbn [foldr drop_leading]. rewrite (Hdrop _ _ Hs).
    apply IH. cbn in Hfuel. lia.
Qed.

Lemma padding_length (seqs ws : list string) (core : string) :
  (∀ s, s ∈ seqs → (1 ≤ String.length s)%nat) →
  Forall (λ s, s ∈ seqs) ws →
  (List.length ws ≤ String.length (foldr String.append core ws))%nat.
Proof.
  intros Hlen. induction 1 as [|s ws Hs _ IH]; cbn [foldr List.length].
  - lia.
  - rewrite string_length_app. specialize (Hlen _ Hs). lia.
Qed.

Lemma strip_padded (before after : list string) (d : date) :
  Forall (λ s, s ∈ whitespace) before →
  Forall (λ s, s ∈ whitespace) after →
  strip (padded before (strftime_Ymd d) after) = strftime_Ymd d.
Proof.
  intros Hb Ha. unfold strip, padded.
  assert (lstrip (foldr String.append
                    (strftime_Ymd d +:+ foldr String.append "" after) before)
          = strftime_Ymd d +:+ foldr String.append "" after) as ->.
  { unfold lstrip. apply drop_leading_padding.
    - apply drop_one_whitespace.
    - done.
    - unfold strftime_Ymd. rewrite string_app_cons.
      apply drop_one_digit, digit_is_digit.
    - by apply (padding_length whitespace); [apply whitespace_length|]. }
  unfold rstrip.
  rewrite rev_append, rev_foldr_append, <- foldr_append_end.
  assert (Forall (λ s, s ∈ map String.rev whitespace)
            (map String.rev (reverse after))) as Hr.
  { apply Forall_fmap, Forall_reverse. eapply Forall_impl; [exact Ha|].
    intros s Hs. by apply (list_elem_of_fmap_2 String.rev). }
  rewrite drop_leading_padding; [apply rev_rev|..].
  - apply drop_one_whitespace_rev.
  - done.
  - unfold strftime_Ymd, String.rev. cbn [String.rev_app].
    apply drop_one_digit_rev, digit_is_digit.
  - rewrite length_map, length_reverse, string_length_app.
    pose proof (padding_length whitespace after "" whitespace_length Ha).
    lia.
Qed.

(** White space around the date does not defeat the gate: when the marker
    holds the date of the day with white space before or after it (the line
    feed an editor or [echo] leaves, say), the cycle returns at once, requests
    nothing and writes nothing. *)
Theorem gate_ignores_whitespace_around_date (w : World) (p : Paths)
    (extract : M value) (publish : M unit) (fs : files)
    (before after : list string) :
  Forall (λ s, s ∈ whitespace) before →
  Forall (λ s, s ∈ whitespace) after →
  fs !! last_run_file p
  = Some (padded before (strftime_Ymd (today_at_gate w)) after) →
  daily_cycle w p extract publish fs = (Return tt, fs, []).
Proof.
  intros Hb Ha Hm. apply daily_cycle_fresh. unfold fresh.
  rewrite Hm, strip_padded by done. apply String.eqb_refl.
Qed.

Lemma gate_ignores_whitespace_around_date_witness :
  let fs : files := {[ "last_run.txt" := " 2026-11-03" +:+ nl ]} in
  App.generate_podcast Demo.answered fs = (Return tt, fs, []).
Proof.
  cbv zeta.
  apply (gate_ignores_whitespace_around_date Demo.answered App.paths _ _ _
           [" "] [nl]).
  - repeat constructor.
  - repeat constructor.
  - vm_compute. reflexivity.
Defined.
